(** * alembic_utils.statement: text transforms on SQL fragments

    A shallow embedding of [src/alembic_utils/statement.py] and the
    properties of its functions.

    Python [str] values are modelled as lists of characters.  A character is
    an [ascii], read as a code point of the Latin-1 range (0..255); this is
    the range on which the whitespace and digit classes below are written
    out.  Exceptions are modelled by a small error monad. *)

From Stdlib Require Import Ascii String DecimalString Bool Arith ZArith Lia List.
Import ListNotations.

Local Open Scope list_scope.
Local Open Scope bool_scope.

(** ** Strings *)

Definition str : Type := list ascii.

(** String literals: [lit "abc"] is the character list of "abc". *)
Abbreviation lit := list_ascii_of_string (only parsing).

Definition dquote : ascii := "034"%char.
Definition backslash : ascii := "092"%char.

(** [str.isspace] on one character: U+0009..U+000D, U+001C..U+0020,
    U+0085 and U+00A0 are the whitespace code points below U+0100. *)
Definition isspace (c : ascii) : bool :=
  let n := nat_of_ascii c in
  ((9 <=? n) && (n <=? 13)) || ((28 <=? n) && (n <=? 32))
  || (n =? 133) || (n =? 160).

(** Decimal digits below U+0100 are '0'..'9'. *)
Definition isdecimal (c : ascii) : bool :=
  let n := nat_of_ascii c in (48 <=? n) && (n <=? 57).

Definition mem_char (c : ascii) (chars : str) : bool :=
  existsb (Ascii.eqb c) chars.

Section Generic.
Context {A : Type} (eqA : A -> A -> bool).

Fixpoint lstrip_by (p : A -> bool) (s : list A) : list A :=
  match s with
  | [] => []
  | c :: s' => if p c then lstrip_by p s' else s
  end.

Definition rstrip_by (p : A -> bool) (s : list A) : list A :=
  rev (lstrip_by p (rev s)).

(** [s.startswith(p)] *)
Fixpoint starts_with (p s : list A) : bool :=
  match p, s with
  | [], _ => true
  | _ :: _, [] => false
  | a :: p', b :: s' => eqA a b && starts_with p' s'
  end.

(** [sub in s] *)
Fixpoint str_in (sub s : list A) : bool :=
  starts_with sub s ||
  match s with
  | [] => false
  | _ :: s' => str_in sub s'
  end.

(** The left-to-right scan of [s.replace(old, new)] for a non-empty
    [old]: [skip] counts the characters of a match still to be passed. *)
Fixpoint replace_from (old new : list A) (skip : nat) (s : list A) : list A :=
  match s with
  | [] => []
  | c :: s' =>
      match skip with
      | S k => replace_from old new k s'
      | O =>
          if starts_with old s
          then new ++ replace_from old new (length old - 1) s'
          else c :: replace_from old new 0 s'
      end
  end.

(** [s.replace(old, new)]: every non-overlapping occurrence of [old],
    found left to right; an empty [old] matches before every character
    and at the end. *)
Definition replace (old new s : list A) : list A :=
  match old with
  | [] => new ++ flat_map (fun c => c :: new) s
  | _ :: _ => replace_from old new 0 s
  end.

(** [s.split(sep)] for a one-character [sep]. *)
Fixpoint split (sep : A) (s : list A) : list (list A) :=
  match s with
  | [] => [[]]
  | c :: s' =>
      if eqA c sep then [] :: split sep s'
      else match split sep s' with
           | t :: ts => (c :: t) :: ts
           | [] => [[c]]
           end
  end.

(** The text before the first [sep] and the text after it, when there
    is one. *)
Fixpoint break_at (sep : A) (s : list A) : option (list A * list A) :=
  match s with
  | [] => None
  | c :: s' =>
      if eqA c sep then Some ([], s')
      else match break_at sep s' with
           | Some (a, b) => Some (c :: a, b)
           | None => None
           end
  end.

(** [s.split(sep, 1)] for a one-character [sep]. *)
Definition split1 (sep : A) (s : list A) : list (list A) :=
  match break_at sep s with
  | Some (a, b) => [a; b]
  | None => [s]
  end.

(** [s.partition(sep)] for a one-character [sep]. *)
Definition partition (sep : A) (s : list A) : list A * list A * list A :=
  match break_at sep s with
  | Some (a, b) => (a, [sep], b)
  | None => (s, [], [])
  end.

(** [sep.join(parts)] *)
Fixpoint join (sep : list A) (parts : list (list A)) : list A :=
  match parts with
  | [] => []
  | [p] => p
  | p :: ps => p ++ sep ++ join sep ps
  end.
End Generic.

(** [s.lstrip()], [s.rstrip()], [s.strip()] *)
Definition lstrip (s : str) : str := lstrip_by isspace s.
Definition rstrip (s : str) : str := rstrip_by isspace s.
Definition strip (s : str) : str := rstrip (lstrip s).

(** [s.lstrip(chars)], [s.rstrip(chars)] *)
Definition lstrip_chars (chars s : str) : str :=
  lstrip_by (fun c => mem_char c chars) s.
Definition rstrip_chars (chars s : str) : str :=
  rstrip_by (fun c => mem_char c chars) s.

(** [s.split()]: the maximal runs of non-whitespace characters. *)
Fixpoint split_ws (s : str) : list str :=
  match s with
  | [] => []
  | c :: s' =>
      if isspace c then split_ws s'
      else match s' with
           | [] => [[c]]
           | d :: _ =>
               if isspace d then [c] :: split_ws s'
               else match split_ws s' with
                    | t :: ts => (c :: t) :: ts
                    | [] => [[c]]
                    end
           end
  end.

(** ** Whitespace and quote normalisation *)

Definition normalize_whitespace (text : str) (base_whitespace : str) : str :=
  strip (join base_whitespace (split_ws text)).

Definition strip_terminating_semicolon (sql : str) : str :=
  strip (rstrip_chars (lit ";") (strip sql)).

Definition strip_double_quotes (sql : str) : str :=
  let sql := rstrip_chars [dquote] (strip sql) in
  strip (lstrip_chars [dquote] (strip sql)).

(** ** Colon escaping

    [str(uuid4())] draws a fresh random token on every call.  The draw is
    made an explicit argument: [holder] is the token the call obtained. *)

Definition ishex (c : ascii) : bool :=
  let n := nat_of_ascii c in
  ((48 <=? n) && (n <=? 57)) || ((97 <=? n) && (n <=? 102)).

(** The text of a version-4 UUID: 8-4-4-4-12 lower-case hexadecimal digits,
    the version digit 4 and a variant digit among 8, 9, a, b. *)
Definition is_uuid4_text (h : str) : bool :=
  (length h =? 36) &&
  forallb (fun ic : nat * ascii =>
             let (i, c) := ic in
             if (i =? 8) || (i =? 13) || (i =? 18) || (i =? 23)
             then Ascii.eqb c "-"
             else if i =? 14 then Ascii.eqb c "4"
             else if i =? 19 then mem_char c (lit "89ab")
             else ishex c)
          (combine (seq 0 36) h).

Definition escape_colon_for_sql (holder : str) (sql : str) : str :=
  let sql := replace Ascii.eqb (lit "::") holder sql in
  let sql := replace Ascii.eqb (lit ":") (backslash :: lit ":") sql in
  let sql := replace Ascii.eqb holder (lit "::") sql in
  sql.

Definition escape_colon_for_plpgsql (holder1 holder2 holder3 : str) (sql : str)
  : str :=
  let sql := replace Ascii.eqb (lit "::") holder1 sql in
  let sql := replace Ascii.eqb (lit ":=") holder2 sql in
  let sql := replace Ascii.eqb (backslash :: lit ":") holder3 sql in
  let sql := replace Ascii.eqb (lit ":") (backslash :: lit ":") sql in
  let sql := replace Ascii.eqb holder3 (backslash :: lit ":") sql in
  let sql := replace Ascii.eqb holder2 (lit ":=") sql in
  let sql := replace Ascii.eqb holder1 (lit "::") sql in
  sql.

(** ** Exceptions *)

Inductive exn : Type := ValueError | IndexError.

Inductive result (A : Type) : Type :=
| Ok (a : A)
| Raise (e : exn).
Arguments Ok {A} a.
Arguments Raise {A} e.

Definition bind {A B : Type} (r : result A) (k : A -> result B) : result B :=
  match r with
  | Ok a => k a
  | Raise e => Raise e
  end.

Notation "x <- r ;; k" := (bind r (fun x => k))
  (at level 61, r at next level, right associativity).

(** [try: body except ValueError: handler] *)
Definition try_except_ValueError {A : Type} (body handler : result A)
  : result A :=
  match body with
  | Raise ValueError => handler
  | _ => body
  end.

(** [l[i]] on a list. *)
Definition getitem {A : Type} (l : list A) (i : nat) : result A :=
  match nth_error l i with
  | Some a => Ok a
  | None => Raise IndexError
  end.

(** ** Storage parameters *)

(** The value of a key/value parameter: [Union[str, int, float]].  A float
    is represented by the text Python prints for it, which determines it. *)
Inductive value : Type :=
| VStr (s : str)
| VInt (n : Z)
| VFloat (repr : str).

(** [StorageParameter]: a bare flag or a (key, value) tuple. *)
Inductive StorageParameter : Type :=
| Flag (name : str)
| Pair (key : str) (v : value).

(** [s[i]] on a string is a one-character string; it is represented by its
    character, and [int] and [float] below are those of a one-character
    string. *)
Definition py_int (c : ascii) : result Z :=
  if isdecimal c then Ok (Z.of_nat (nat_of_ascii c - 48))
  else Raise ValueError.

Definition py_float (c : ascii) : result str :=
  if isdecimal c then Ok (c :: lit ".0")
  else Raise ValueError.

(** [str(n)] for an integer. *)
Definition str_of_int (n : Z) : str :=
  list_ascii_of_string (NilZero.string_of_int (Z.to_int n)).

(** [f"{v}"] *)
Definition format_value (v : value) : str :=
  match v with
  | VStr s => s
  | VInt n => str_of_int n
  | VFloat r => r
  end.

Definition format_param (param : StorageParameter) : str :=
  match param with
  | Flag name => name
  | Pair key v => key ++ lit "=" ++ format_value v
  end.

Definition format_storage_parameters_clause
  (storage_parameters : option (list StorageParameter)) : str :=
  match storage_parameters with
  | None => []
  | Some [] => []
  | Some l =>
      let params := map format_param l in
      lit " WITH (" ++ join (lit ", ") params ++ lit ")"
  end.

(** The body of the [for] loop: the parameter one part yields. *)
Definition parse_part (part : str) : result StorageParameter :=
  let new_part := Flag (strip part) in
  if str_in Ascii.eqb (lit "=") part then
    let split_part := split1 Ascii.eqb "="%char part in
    k <- getitem split_part 0 ;;
    v <- getitem split_part 1 ;;
    let new_part := Pair (strip k) (VStr (strip v)) in
    try_except_ValueError
      (c0 <- getitem part 0 ;;
       c1 <- getitem part 1 ;;
       n <- py_int c1 ;;
       Ok (Pair [c0] (VInt n)))
      (try_except_ValueError
         (c0 <- getitem part 0 ;;
          c1 <- getitem part 1 ;;
          f <- py_float c1 ;;
          Ok (Pair [c0] (VFloat f)))
         (Ok new_part))
  else Ok new_part.

(** The [for] loop over the parts, appending to [params]. *)
Fixpoint parse_parts (parts : list str) (params : list StorageParameter)
  : result (list StorageParameter) :=
  match parts with
  | [] => Ok params
  | part :: rest =>
      new_part <- parse_part part ;;
      parse_parts rest (params ++ [new_part])
  end.

Definition parse_storage_parameters (storage_parameters : str)
  : result (list StorageParameter) :=
  parse_parts (split Ascii.eqb ","%char storage_parameters) [].

(** ** Identifier quoting *)

Definition coerce_to_quoted (text : str) : str :=
  if str_in Ascii.eqb (lit ".") text then
    let '(schema, _, name) := partition Ascii.eqb "."%char text in
    let schema := [dquote] ++ strip_double_quotes schema ++ [dquote] in
    let name := [dquote] ++ strip_double_quotes name ++ [dquote] in
    schema ++ lit "." ++ name
  else
    let text := strip_double_quotes text in
    [dquote] ++ text ++ [dquote].

Definition coerce_to_unquoted (text : str) : str :=
  join [] (split Ascii.eqb dquote text).

(** ** Reference semantics of the escapers

    The three-step technique (protect, escape, restore) is described over
    an alphabet that extends the characters with out-of-band placeholder
    symbols [Hold i], which no input text can contain. *)

Inductive sym : Type :=
| Ch (c : ascii)
| Hold (i : nat).

Definition sym_eqb (x y : sym) : bool :=
  match x, y with
  | Ch c, Ch d => Ascii.eqb c d
  | Hold i, Hold j => Nat.eqb i j
  | _, _ => false
  end.

(** The text of one symbol and of a symbol string, when placeholder [i]
    stands for the token [hs i]. *)
Definition flat1 (hs : nat -> str) (x : sym) : str :=
  match x with
  | Ch c => [c]
  | Hold i => hs i
  end.

Definition flat (hs : nat -> str) (t : list sym) : str :=
  flat_map (flat1 hs) t.

(** The characters of a symbol string without placeholders. *)
Definition chars_of (t : list sym) : str :=
  flat (fun _ => []) t.

Definition protect (old : str) (i : nat) (t : list sym) : list sym :=
  replace sym_eqb (map Ch old) [Hold i] t.

Definition restore (i : nat) (new : str) (t : list sym) : list sym :=
  replace sym_eqb [Hold i] (map Ch new) t.

Definition escape_single (t : list sym) : list sym :=
  replace sym_eqb (map Ch (lit ":")) (map Ch (backslash :: lit ":")) t.

(** [escape_colon_for_sql] with an out-of-band placeholder, up to the
    escaping step and in full. *)
Definition sql_escaped (sql : str) : list sym :=
  escape_single (protect (lit "::") 1 (map Ch sql)).

Definition escape_colon_for_sql_oob (sql : str) : str :=
  chars_of (restore 1 (lit "::") (sql_escaped sql)).

(** [escape_colon_for_plpgsql] with three out-of-band placeholders: the
    symbol strings before each of the three restoring steps, and the
    result. *)
Definition plpgsql_escaped (sql : str) : list sym :=
  escape_single
    (protect (backslash :: lit ":") 3
       (protect (lit ":=") 2 (protect (lit "::") 1 (map Ch sql)))).

Definition plpgsql_restored3 (sql : str) : list sym :=
  restore 3 (backslash :: lit ":") (plpgsql_escaped sql).

Definition plpgsql_restored2 (sql : str) : list sym :=
  restore 2 (lit ":=") (plpgsql_restored3 sql).

Definition escape_colon_for_plpgsql_oob (sql : str) : str :=
  chars_of (restore 1 (lit "::") (plpgsql_restored2 sql)).

(** One left-to-right pass that escapes every colon outside a pair. *)
Fixpoint escape_sql_scan (s : str) : str :=
  match s with
  | [] => []
  | c :: s' =>
      if Ascii.eqb c ":" then
        match s' with
        | d :: s'' =>
            if Ascii.eqb d ":" then lit "::" ++ escape_sql_scan s''
            else backslash :: ":"%char :: escape_sql_scan s'
        | [] => [backslash; ":"%char]
        end
      else c :: escape_sql_scan s'
  end.

(** One left-to-right pass for procedural bodies: a pair of colons and a
    colon followed by '=' are kept, a colon that follows a backslash is
    kept, every other colon receives a backslash.  [esc] tells whether the
    character before [s] is a backslash. *)
Fixpoint escape_plpgsql_scan (esc : bool) (s : str) : str :=
  match s with
  | [] => []
  | c :: s' =>
      if Ascii.eqb c ":" then
        match s' with
        | d :: s'' =>
            if Ascii.eqb d ":" then lit "::" ++ escape_plpgsql_scan false s''
            else if Ascii.eqb d "=" then lit ":=" ++ escape_plpgsql_scan false s''
            else (if esc then [":"%char] else [backslash; ":"%char])
                   ++ escape_plpgsql_scan false s'
        | [] => if esc then [":"%char] else [backslash; ":"%char]
        end
      else c :: escape_plpgsql_scan (Ascii.eqb c backslash) s'
  end.

(** ** Placeholder collisions *)

(** A placeholder token the protecting steps can use: not empty, and free
    of the characters the protected sequences are made of. *)
Definition holder_ok (h : str) : bool :=
  negb (Nat.eqb (length h) 0)
  && forallb (fun c => negb (mem_char c (backslash :: lit ":="))) h.

(** An occurrence of [h] in [pre ++ r] that begins inside [pre]. *)
Fixpoint begins_inside (h pre r : str) : bool :=
  match pre with
  | [] => false
  | _ :: pre' => starts_with Ascii.eqb h (pre ++ r) || begins_inside h pre' r
  end.

(** In the text of [t], the token [hs i] occurs only where the symbol
    [Hold i] stands: no occurrence begins inside the text of another
    symbol. *)
Fixpoint occurs_only_at (hs : nat -> str) (i : nat) (t : list sym) : bool :=
  match t with
  | [] => true
  | x :: t' =>
      (sym_eqb x (Hold i) || negb (begins_inside (hs i) (flat1 hs x) (flat hs t')))
      && occurs_only_at hs i t'
  end.

Definition holders1 (holder : str) : nat -> str := fun _ => holder.

Definition holders3 (holder1 holder2 holder3 : str) : nat -> str :=
  fun i => match i with
           | 1 => holder1
           | 2 => holder2
           | _ => holder3
           end.

(** The token drawn by [escape_colon_for_sql] does not collide with the
    text it is restored from. *)
Definition no_collision_sql (holder : str) (sql : str) : bool :=
  occurs_only_at (holders1 holder) 1 (sql_escaped sql).

(** The three tokens drawn by [escape_colon_for_plpgsql] do not collide
    with the texts they are restored from. *)
Definition no_collision_plpgsql (holder1 holder2 holder3 : str) (sql : str)
  : bool :=
  let hs := holders3 holder1 holder2 holder3 in
  occurs_only_at hs 3 (plpgsql_escaped sql)
  && occurs_only_at hs 2 (plpgsql_restored3 sql)
  && occurs_only_at hs 1 (plpgsql_restored2 sql).

(** The seven steps of [escape_colon_for_plpgsql] on a symbol string. *)
Definition plpgsql_steps (t : list sym) : list sym :=
  restore 1 (lit "::")
    (restore 2 (lit ":=")
       (restore 3 (backslash :: lit ":")
          (escape_single
             (protect (backslash :: lit ":") 3
                (protect (lit ":=") 2 (protect (lit "::") 1 t)))))).

(** ** Ends of a text *)

Definition is_dquote (c : ascii) : bool := mem_char c [dquote].

(** [s] does not begin (end) with a character of the class [p]. *)
Definition hd_ok {A : Type} (p : A -> bool) (s : list A) : bool :=
  match s with
  | [] => true
  | c :: _ => negb (p c)
  end.

Definition last_ok {A : Type} (p : A -> bool) (s : list A) : bool :=
  hd_ok p (rev s).

(** [s] is not empty and does not begin (end) with a character of [p]. *)
Definition hd_not {A : Type} (p : A -> bool) (s : list A) : bool :=
  match s with
  | [] => false
  | c :: _ => negb (p c)
  end.

Definition last_not {A : Type} (p : A -> bool) (s : list A) : bool :=
  hd_not p (rev s).

(** No double quote at either end. *)
Definition quote_free_ends (s : str) : bool :=
  hd_ok is_dquote s && last_ok is_dquote s.

(** A text that is not empty and has neither whitespace nor a double quote
    at either end. *)
Definition core_text (c : str) : bool :=
  hd_not isspace c && hd_not is_dquote c
  && last_not isspace c && last_not is_dquote c.

(** The reading of [strip_double_quotes] that removes at most one double
    quote at each end. *)
Definition drop_last_dquote (s : str) : str :=
  match rev s with
  | c :: r => if is_dquote c then rev r else s
  | [] => s
  end.

Definition drop_first_dquote (s : str) : str :=
  match s with
  | c :: r => if is_dquote c then r else s
  | [] => s
  end.

Definition strip_double_quotes_one_layer (sql : str) : str :=
  let sql := drop_last_dquote (strip sql) in
  strip (drop_first_dquote (strip sql)).

(** ** Reference reading of the schema/name boundary

    The first '.' that is outside double quotes; [inq] tells whether the
    scan is inside a quoted part. *)
Fixpoint break_outside_quotes (inq : bool) (s : str) : option (str * str) :=
  match s with
  | [] => None
  | c :: s' =>
      if Ascii.eqb c "." && negb inq then Some ([], s')
      else match break_outside_quotes
                   (if is_dquote c then negb inq else inq) s' with
           | Some (a, b) => Some (c :: a, b)
           | None => None
           end
  end.

Definition coerce_to_quoted_outside_quotes (text : str) : str :=
  match break_outside_quotes false text with
  | Some (schema, name) =>
      ([dquote] ++ strip_double_quotes schema ++ [dquote])
        ++ lit "." ++ ([dquote] ++ strip_double_quotes name ++ [dquote])
  | None => [dquote] ++ strip_double_quotes text ++ [dquote]
  end.

(** ** Storage-parameter clauses that the numeric step leaves alone *)

(** The sequence the docstring and the test of [parse_storage_parameters]
    give for the input "param1, param2=80,param3='test',param4=80.5". *)
Definition documented_parameters : list StorageParameter :=
  [ Flag (lit "param1");
    Pair (lit "param2") (VInt 80);
    Pair (lit "param3") (VStr (lit "'test'"));
    Pair (lit "param4") (VFloat (lit "80.5")) ].

(** A key that is not empty and has no decimal digit among its first two
    characters. *)
Definition key_ok (k : str) : bool :=
  negb (Nat.eqb (length k) 0)
  && forallb (fun c => negb (isdecimal c)) (firstn 2 k).

(** A part without '=', or a part whose key is [key_ok]. *)
Definition part_ok (part : str) : bool :=
  match break_at Ascii.eqb "="%char part with
  | None => true
  | Some (k, _) => key_ok (strip k)
  end.

Definition clause_ok (s : str) : bool :=
  forallb part_ok (split Ascii.eqb ","%char s).

(** The parameter of a part when the numeric step does not apply: a flag,
    or the trimmed key with the trimmed text of the value. *)
Definition plain_param (part : str) : StorageParameter :=
  match break_at Ascii.eqb "="%char part with
  | None => Flag (strip part)
  | Some (k, v) => Pair (strip k) (VStr (strip v))
  end.

(** The text between the parentheses of the clause
    [format_storage_parameters_clause] writes. *)
Definition clause_body (l : list StorageParameter) : str :=
  join (lit ", ") (map format_param l).

(** ** Tokens and texts without '-' *)

Definition is_dash (c : ascii) : bool := Ascii.eqb c "-".

(** The places of the four '-' in the text of a UUID. *)
Definition uuid_dash_places : list bool :=
  map (fun i => (i =? 8) || (i =? 13) || (i =? 18) || (i =? 23)) (seq 0 36).

(** A symbol in whose text the token [hs i] cannot begin: a character
    that is not '-', the placeholder [Hold i] itself, or a placeholder for
    another token. *)
Definition token_clear (hs : nat -> str) (i : nat) (x : sym) : Prop :=
  match x with
  | Ch c => is_dash c = false
  | Hold j => j = i \/ hs j <> hs i
  end.

(** ** Words *)

(** A word of [s.split()]: not empty and without whitespace. *)
Definition is_word (t : str) : bool :=
  negb (Nat.eqb (length t) 0) && forallb (fun c => negb (isspace c)) t.

(** ** Characters stripped at the ends *)

Definition is_semicolon (c : ascii) : bool := mem_char c (lit ";").

(** A text that is not empty, has no whitespace at either end and does not
    end with a semicolon. *)
Definition statement_text (c : str) : bool :=
  hd_not isspace c && last_not isspace c && last_not is_semicolon c.

(** No whitespace and no double quote at either end. *)
Definition clean_ends (s : str) : bool :=
  hd_ok isspace s && last_ok isspace s
  && hd_ok is_dquote s && last_ok is_dquote s.

(** ** References whose parts come out with clean ends *)

(** The parts [coerce_to_quoted] makes of a text, after their quotes are
    stripped, have no double quote at either end. *)
Definition parts_quote_free (text : str) : bool :=
  match break_at Ascii.eqb "."%char text with
  | Some (a, b) =>
      quote_free_ends (strip_double_quotes a)
      && quote_free_ends (strip_double_quotes b)
  | None => quote_free_ends (strip_double_quotes text)
  end.

(** ** Shapes of parsed parameters *)

(** A flag, a pair with a text value, or a pair of a one-character key
    with an integer from 0 to 9. *)
Definition param_shape (p : StorageParameter) : bool :=
  match p with
  | Flag _ => true
  | Pair _ (VStr _) => true
  | Pair k (VInt n) => Nat.eqb (length k) 1 && Z.leb 0 n && Z.leb n 9
  | Pair _ (VFloat _) => false
  end.

(** ** Texts up to their backslashes *)

Definition not_backslash (c : ascii) : bool := negb (Ascii.eqb c backslash).

(** The text without its backslashes. *)
Definition drop_backslashes (s : str) : str := filter not_backslash s.

(** ** Sample inputs *)

Definition uuid_a : str := lit "3f2b8c1e-7a4d-4e9b-8c6f-1d2e3a4b5c6d".
Definition uuid_b : str := lit "0b3e1c2d-5f6a-4b7c-9d8e-1a2b3c4d5e6f".
Definition uuid_c : str := lit "9a8b7c6d-5e4f-4a3b-b2c1-0d9e8f7a6b5c".
Definition uuid_d : str := lit "6c1d2e3f-4a5b-4c6d-a7e8-f9a0b1c2d3e4".

Definition sample_url : str :=
  lit "https://something/' || x::text || ':' FROM t".

Definition sample_body : str :=
  lit "BEGIN x := y::int; RAISE NOTICE 'a:b \: c'; END".

(** A token and a text that does not contain it, but ends with its first
    28 characters followed by a pair of colons. *)
Definition uuid_e : str := lit "abcdef01-2345-4678-9abc-0000abcdef01".

Definition sample_cast : str := lit "abcdef01-2345-4678-9abc-0000::".

(** * Properties *)

(** ** Facts about [replace] *)

Section ReplaceFacts.
Context {A : Type} (eqA : A -> A -> bool).
Hypothesis eqA_eq : forall a b, eqA a b = true <-> a = b.

Lemma starts_with_app (p r : list A) : starts_with eqA p (p ++ r) = true.
Proof.
  induction p as [|a p IH]; simpl; [reflexivity|].
  rewrite IH, andb_true_r. now apply eqA_eq.
Qed.

Lemma starts_with_inv (p s : list A) :
  starts_with eqA p s = true -> exists r, s = p ++ r.
Proof.
  revert s; induction p as [|a p IH]; intros s H.
  - now exists s.
  - destruct s as [|b s]; simpl in H; [discriminate|].
    apply andb_true_iff in H as [Hab Hp].
    apply eqA_eq in Hab; subst b.
    destruct (IH _ Hp) as [r ->]. now exists r.
Qed.

Lemma replace_from_skip (old new pre r : list A) :
  replace_from eqA old new (length pre) (pre ++ r)
  = replace_from eqA old new 0 r.
Proof.
  induction pre as [|c pre IH]; simpl.
  - destruct r; reflexivity.
  - exact IH.
Qed.

Lemma replace_from_hit (old new r : list A) :
  old <> [] ->
  replace_from eqA old new 0 (old ++ r)
  = new ++ replace_from eqA old new 0 r.
Proof.
  destruct old as [|a old]; [congruence|]; intros _.
  change ((a :: old) ++ r) with (a :: (old ++ r)).
  cbn [replace_from].
  change (a :: old ++ r) with ((a :: old) ++ r).
  rewrite starts_with_app.
  cbn [length]. rewrite Nat.sub_succ, Nat.sub_0_r.
  now rewrite replace_from_skip.
Qed.

Lemma replace_from_miss (old new : list A) (c : A) (s : list A) :
  starts_with eqA old (c :: s) = false ->
  replace_from eqA old new 0 (c :: s) = c :: replace_from eqA old new 0 s.
Proof.
  intros H. cbn [replace_from]. now rewrite H.
Qed.

Lemma replace_hit (old new r : list A) :
  old <> [] ->
  replace eqA old new (old ++ r) = new ++ replace eqA old new r.
Proof.
  intros H. destruct old as [|a old]; [congruence|].
  unfold replace. now apply replace_from_hit.
Qed.

Lemma replace_miss (old new : list A) (c : A) (s : list A) :
  starts_with eqA old (c :: s) = false ->
  replace eqA old new (c :: s) = c :: replace eqA old new s.
Proof.
  intros H. destruct old as [|a old]; [discriminate|].
  unfold replace. now apply replace_from_miss.
Qed.

Lemma replace_nil (old new : list A) :
  old <> [] -> replace eqA old new [] = [].
Proof.
  destruct old; [congruence|reflexivity].
Qed.

(** A prefix in which [old] cannot begin is copied. *)
Lemma replace_pass (old new pre r : list A) :
  (forall k, k < length pre ->
             starts_with eqA old (skipn k pre ++ r) = false) ->
  replace eqA old new (pre ++ r) = pre ++ replace eqA old new r.
Proof.
  induction pre as [|c pre IH]; intros H; [reflexivity|].
  cbn [app]. rewrite replace_miss.
  - f_equal. apply IH. intros k Hk.
    apply (H (S k)). simpl. lia.
  - apply (H 0). simpl. lia.
Qed.
End ReplaceFacts.

Lemma sym_eqb_eq (x y : sym) : sym_eqb x y = true <-> x = y.
Proof.
  destruct x as [c|i], y as [d|j]; simpl; split; intros H;
    try discriminate; try congruence.
  - apply Ascii.eqb_eq in H. now subst.
  - injection H as ->. apply Ascii.eqb_refl.
  - apply Nat.eqb_eq in H. now subst.
  - injection H as ->. apply Nat.eqb_refl.
Qed.

Lemma flat_app (hs : nat -> str) (t u : list sym) :
  flat hs (t ++ u) = flat hs t ++ flat hs u.
Proof. unfold flat. apply flat_map_app. Qed.

Lemma flat_chars (hs : nat -> str) (s : str) : flat hs (map Ch s) = s.
Proof.
  induction s as [|c s IH]; simpl; [reflexivity|]. now rewrite IH.
Qed.

(** ** Replacement on texts and on symbol strings *)

Lemma begins_inside_false (h pre r : str) :
  begins_inside h pre r = false ->
  forall k, k < length pre ->
            starts_with Ascii.eqb h (skipn k pre ++ r) = false.
Proof.
  induction pre as [|c pre IH]; simpl; intros H k Hk; [lia|].
  apply orb_false_iff in H as [H0 H1].
  destruct k as [|k]; [exact H0|].
  simpl. apply IH; [exact H1|lia].
Qed.

Section Simulation.
Variable hs : nat -> str.
Hypothesis hs_nonempty : forall i, hs i <> [].

Lemma starts_with_flat (old : str) (t : list sym) :
  Forall (fun a => forall i, ~ In a (hs i)) old ->
  starts_with Ascii.eqb old (flat hs t)
  = starts_with sym_eqb (map Ch old) t.
Proof.
  intros Hold. revert t.
  induction Hold as [|a old Ha _ IH]; intros t; [reflexivity|].
  destruct t as [|[c|i] t]; cbn [map flat flat_map flat1 app starts_with sym_eqb].
  - reflexivity.
  - fold (flat hs t). now rewrite IH.
  - fold (flat hs t).
    destruct (hs i) as [|h0 hr] eqn:E; [now apply hs_nonempty in E|].
    cbn [app starts_with].
    destruct (Ascii.eqb_spec a h0) as [->|]; [|reflexivity].
    exfalso. apply (Ha i). rewrite E. now left.
Qed.

(** Replacing a character sequence no token contains commutes with
    reading the placeholders as tokens. *)
Lemma replace_flat_chars (old : str) (nsym t : list sym) :
  old <> [] ->
  Forall (fun a => forall i, ~ In a (hs i)) old ->
  flat hs (replace sym_eqb (map Ch old) nsym t)
  = replace Ascii.eqb old (flat hs nsym) (flat hs t).
Proof.
  intros Hne Hold.
  assert (Hne' : map Ch old <> []) by (destruct old; [congruence|discriminate]).
  remember (length t) as n eqn:Hn.
  revert t Hn. induction n as [n IH] using lt_wf_ind. intros t Hn.
  destruct t as [|x t].
  - rewrite (replace_nil _ _ _ Hne'). simpl.
    now rewrite (replace_nil _ _ _ Hne).
  - destruct (starts_with sym_eqb (map Ch old) (x :: t)) eqn:E.
    + destruct (starts_with_inv _ sym_eqb_eq _ _ E) as [r Hr].
      rewrite Hr, (replace_hit _ sym_eqb_eq _ _ _ Hne').
      rewrite !flat_app, flat_chars.
      rewrite (replace_hit _ Ascii.eqb_eq _ _ _ Hne).
      f_equal. apply (IH (length r)); [|reflexivity].
      subst n. rewrite Hr, length_app, length_map.
      destruct old; [congruence|simpl; lia].
    + rewrite (replace_miss _ _ _ _ _ E).
      change (flat hs (x :: ?u)) with (flat1 hs x ++ flat hs u).
      rewrite (IH (length t)); [|subst n; simpl; lia|reflexivity].
      symmetry. apply replace_pass. intros k Hk.
      destruct x as [c|i]; cbn [flat1] in *.
      * destruct k; [|simpl in Hk; lia].
        cbn [skipn app]. 
        change (c :: flat hs t) with (flat hs (Ch c :: t)).
        now rewrite starts_with_flat.
      * destruct old as [|a old]; [congruence|].
        destruct (skipn k (hs i)) as [|h0 hr] eqn:Ek.
        { apply (f_equal (@length _)) in Ek.
          rewrite length_skipn in Ek. simpl in Ek. lia. }
        cbn [app starts_with].
        destruct (Ascii.eqb_spec a h0) as [->|]; [|reflexivity].
        exfalso. inversion Hold as [|? ? Ha _]; subst.
        apply (Ha i). rewrite <- (firstn_skipn k (hs i)), Ek.
        apply in_or_app. right. now left.
Qed.

(** Replacing a token that occurs only where its placeholder stands
    commutes with reading the placeholders as tokens. *)
Lemma replace_flat_holder (i : nat) (new : str) (t : list sym) :
  occurs_only_at hs i t = true ->
  replace Ascii.eqb (hs i) new (flat hs t)
  = flat hs (replace sym_eqb [Hold i] (map Ch new) t).
Proof.
  induction t as [|x t IH]; intros H.
  - simpl. now apply replace_nil.
  - cbn [occurs_only_at] in H.
    apply andb_true_iff in H as [Hx Ht].
    change (flat hs (x :: t)) with (flat1 hs x ++ flat hs t).
    destruct (sym_eqb x (Hold i)) eqn:E.
    + apply sym_eqb_eq in E; subst x. cbn [flat1].
      rewrite (replace_hit _ Ascii.eqb_eq _ _ _ (hs_nonempty i)).
      change (Hold i :: t) with ([Hold i] ++ t).
      rewrite (replace_hit _ sym_eqb_eq); [|discriminate].
      rewrite flat_app, flat_chars. now rewrite IH.
    + rewrite (replace_miss sym_eqb).
      2:{ cbn [starts_with]. destruct x as [c|j]; cbn [sym_eqb] in *.
          - reflexivity.
          - rewrite Nat.eqb_sym, E. reflexivity. }
      change (flat hs (x :: ?u)) with (flat1 hs x ++ flat hs u).
      rewrite <- IH by exact Ht.
      apply replace_pass. apply begins_inside_false.
      simpl in Hx. now apply negb_true_iff in Hx.
Qed.
End Simulation.

(** ** The steps of the escapers on symbol strings *)

Lemma protect_hit (a b : ascii) (i : nat) (t : list sym) :
  protect [a; b] i (Ch a :: Ch b :: t) = Hold i :: protect [a; b] i t.
Proof.
  unfold protect. cbn [map].
  change (Ch a :: Ch b :: t) with ([Ch a; Ch b] ++ t).
  rewrite (replace_hit _ sym_eqb_eq); [reflexivity|discriminate].
Qed.

Lemma protect_miss (old : str) (i : nat) (x : sym) (t : list sym) :
  starts_with sym_eqb (map Ch old) (x :: t) = false ->
  protect old i (x :: t) = x :: protect old i t.
Proof. intros H. unfold protect. now apply replace_miss. Qed.

Lemma protect_hold (a b : ascii) (i j : nat) (t : list sym) :
  protect [a; b] i (Hold j :: t) = Hold j :: protect [a; b] i t.
Proof. now apply protect_miss. Qed.

Lemma protect_other (a b : ascii) (i : nat) (c : ascii) (t : list sym) :
  c <> a -> protect [a; b] i (Ch c :: t) = Ch c :: protect [a; b] i t.
Proof.
  intros H. apply protect_miss. cbn [map starts_with sym_eqb].
  destruct (Ascii.eqb_spec a c); [congruence|reflexivity].
Qed.

Lemma protect_single (a b : ascii) (i : nat) (x : sym) (t : list sym) :
  x <> Ch b ->
  protect [a; b] i (Ch a :: x :: t) = Ch a :: protect [a; b] i (x :: t).
Proof.
  intros H. apply protect_miss. cbn [map starts_with].
  destruct (sym_eqb (Ch b) x) eqn:E.
  - apply sym_eqb_eq in E. congruence.
  - now rewrite andb_false_r.
Qed.

Lemma protect_last (a b : ascii) (i : nat) :
  protect [a; b] i [Ch a] = [Ch a].
Proof.
  unfold protect. cbn. now rewrite Ascii.eqb_refl.
Qed.

Lemma protect_nil (a b : ascii) (i : nat) : protect [a; b] i [] = [].
Proof. reflexivity. Qed.

Lemma escape_single_hit (t : list sym) :
  escape_single (Ch ":" :: t) = Ch backslash :: Ch ":" :: escape_single t.
Proof.
  unfold escape_single. cbn [map list_ascii_of_string].
  change (Ch ":" :: t) with ([Ch ":"%char] ++ t).
  rewrite (replace_hit _ sym_eqb_eq); [reflexivity|discriminate].
Qed.

Lemma escape_single_miss (x : sym) (t : list sym) :
  x <> Ch ":" -> escape_single (x :: t) = x :: escape_single t.
Proof.
  intros H. unfold escape_single. apply replace_miss.
  cbn [map list_ascii_of_string starts_with].
  destruct (sym_eqb (Ch ":") x) eqn:E; [|reflexivity].
  apply sym_eqb_eq in E. congruence.
Qed.

Lemma restore_hit (i : nat) (new : str) (t : list sym) :
  restore i new (Hold i :: t) = map Ch new ++ restore i new t.
Proof.
  unfold restore. change (Hold i :: t) with ([Hold i] ++ t).
  rewrite (replace_hit _ sym_eqb_eq); [reflexivity|discriminate].
Qed.

Lemma restore_miss (i : nat) (new : str) (x : sym) (t : list sym) :
  x <> Hold i -> restore i new (x :: t) = x :: restore i new t.
Proof.
  intros H. unfold restore. apply replace_miss. cbn [starts_with].
  destruct (sym_eqb (Hold i) x) eqn:E; [|reflexivity].
  apply sym_eqb_eq in E. congruence.
Qed.

(** [escape_colon_for_sql] on symbol strings is the one-pass scan. *)
Lemma sql_steps_scan (s : str) :
  restore 1 (lit "::") (sql_escaped s) = map Ch (escape_sql_scan s).
Proof.
  unfold sql_escaped.
  assert (H : forall n s, length s <= n ->
    restore 1 (lit "::") (escape_single (protect (lit "::") 1 (map Ch s)))
    = map Ch (escape_sql_scan s)); [|now apply (H (length s))].
  clear s. induction n as [|n IH]; intros s Hn.
  { destruct s; [reflexivity|simpl in Hn; lia]. }
  destruct s as [|c s]; [reflexivity|].
  cbn [list_ascii_of_string map escape_sql_scan length] in *.
  destruct (Ascii.eqb_spec c ":") as [->|Hc].
  - destruct s as [|d s].
    + reflexivity.
    + cbn [map length] in *.
      destruct (Ascii.eqb_spec d ":") as [->|Hd].
      * rewrite protect_hit, escape_single_miss, restore_hit by discriminate.
        rewrite IH by lia. reflexivity.
      * rewrite protect_single by congruence.
        rewrite escape_single_hit, !restore_miss by discriminate.
        change (Ch d :: map Ch s) with (map Ch (d :: s)).
        rewrite IH by (simpl; lia). reflexivity.
  - rewrite protect_other, escape_single_miss, restore_miss
      by (congruence || discriminate).
    rewrite IH by lia. reflexivity.
Qed.

Ltac steps_unfold :=
  unfold plpgsql_steps, backslash;
  cbn [map app list_ascii_of_string].

Ltac step :=
  first [ rewrite protect_hit
        | rewrite protect_hold
        | rewrite protect_last
        | rewrite protect_nil
        | rewrite protect_other by congruence
        | rewrite protect_single by congruence
        | rewrite escape_single_hit
        | rewrite escape_single_miss by congruence
        | rewrite restore_hit
        | rewrite restore_miss by congruence ];
  cbn [map app list_ascii_of_string].

Lemma plpgsql_steps_other (c : ascii) (t : list sym) :
  c <> ":"%char -> c <> "\"%char ->
  plpgsql_steps (Ch c :: t) = Ch c :: plpgsql_steps t.
Proof. intros H1 H2. steps_unfold. repeat step. reflexivity. Qed.

Lemma plpgsql_steps_pair (t : list sym) :
  plpgsql_steps (Ch ":" :: Ch ":" :: t) = Ch ":" :: Ch ":" :: plpgsql_steps t.
Proof. steps_unfold. repeat step. reflexivity. Qed.

Lemma plpgsql_steps_assign (t : list sym) :
  plpgsql_steps (Ch ":" :: Ch "=" :: t) = Ch ":" :: Ch "=" :: plpgsql_steps t.
Proof.
  steps_unfold.
  rewrite (protect_single ":" ":" 1) by congruence.
  rewrite (protect_other ":" ":" 1 "=") by congruence.
  repeat step. reflexivity.
Qed.

Lemma plpgsql_steps_single (d : ascii) (t : list sym) :
  d <> ":"%char -> d <> "="%char ->
  plpgsql_steps (Ch ":" :: Ch d :: t)
  = Ch "\" :: Ch ":" :: plpgsql_steps (Ch d :: t).
Proof.
  intros H1 H2. steps_unfold.
  rewrite (protect_single ":" ":" 1) by congruence.
  rewrite (protect_other ":" ":" 1 d) by congruence.
  rewrite (protect_single ":" "=" 2) by congruence.
  repeat step. reflexivity.
Qed.

Lemma plpgsql_steps_last :
  plpgsql_steps [Ch ":"] = [Ch "\"; Ch ":"].
Proof. reflexivity. Qed.

Lemma plpgsql_steps_esc (c : ascii) (t : list sym) :
  c <> ":"%char ->
  plpgsql_steps (Ch "\" :: Ch c :: t) = Ch "\" :: plpgsql_steps (Ch c :: t).
Proof.
  intros H. steps_unfold.
  rewrite (protect_other ":" ":" 1 "\") by congruence.
  rewrite (protect_other ":" ":" 1 c) by congruence.
  rewrite (protect_other ":" "=" 2 "\") by congruence.
  rewrite (protect_other ":" "=" 2 c) by congruence.
  rewrite (protect_single "\" ":" 3) by congruence.
  repeat step. reflexivity.
Qed.

Lemma plpgsql_steps_esc_pair (t : list sym) :
  plpgsql_steps (Ch "\" :: Ch ":" :: Ch ":" :: t)
  = Ch "\" :: Ch ":" :: Ch ":" :: plpgsql_steps t.
Proof.
  steps_unfold.
  rewrite (protect_other ":" ":" 1 "\") by congruence.
  rewrite protect_hit.
  rewrite (protect_other ":" "=" 2 "\") by congruence.
  rewrite (protect_hold ":" "=" 2 1).
  rewrite (protect_single "\" ":" 3) by congruence.
  repeat step. reflexivity.
Qed.

Lemma plpgsql_steps_esc_assign (t : list sym) :
  plpgsql_steps (Ch "\" :: Ch ":" :: Ch "=" :: t)
  = Ch "\" :: Ch ":" :: Ch "=" :: plpgsql_steps t.
Proof.
  steps_unfold.
  rewrite (protect_other ":" ":" 1 "\") by congruence.
  rewrite (protect_single ":" ":" 1) by congruence.
  rewrite (protect_other ":" ":" 1 "=") by congruence.
  rewrite (protect_other ":" "=" 2 "\") by congruence.
  rewrite protect_hit.
  rewrite (protect_single "\" ":" 3) by congruence.
  repeat step. reflexivity.
Qed.

Lemma plpgsql_steps_esc_single (d : ascii) (t : list sym) :
  d <> ":"%char -> d <> "="%char ->
  plpgsql_steps (Ch "\" :: Ch ":" :: Ch d :: t)
  = Ch "\" :: Ch ":" :: plpgsql_steps (Ch d :: t).
Proof.
  intros H1 H2. steps_unfold.
  rewrite (protect_other ":" ":" 1 "\") by congruence.
  rewrite (protect_single ":" ":" 1) by congruence.
  rewrite (protect_other ":" ":" 1 d) by congruence.
  rewrite (protect_other ":" "=" 2 "\") by congruence.
  rewrite (protect_single ":" "=" 2) by congruence.
  rewrite (protect_hit "\" ":" 3).
  repeat step. reflexivity.
Qed.

(** [escape_colon_for_plpgsql] on symbol strings is the one-pass scan,
    also behind a backslash. *)
Lemma plpgsql_steps_scan_both (n : nat) :
  forall s, length s <= n ->
    plpgsql_steps (map Ch s) = map Ch (escape_plpgsql_scan false s)
    /\ plpgsql_steps (Ch "\" :: map Ch s)
       = Ch "\" :: map Ch (escape_plpgsql_scan true s).
Proof.
  induction n as [|n IH]; intros s Hn.
  { destruct s; [split; reflexivity|simpl in Hn; lia]. }
  destruct s as [|c s]; [split; reflexivity|].
  cbn [length] in Hn.
  assert (Hs : length s <= n) by lia.
  assert (Hfalse : plpgsql_steps (map Ch (c :: s))
                   = map Ch (escape_plpgsql_scan false (c :: s))).
  { cbn [map escape_plpgsql_scan].
    destruct (Ascii.eqb_spec c ":") as [->|Hc].
    - destruct s as [|d s]; [reflexivity|].
      cbn [map length] in *.
      destruct (Ascii.eqb_spec d ":") as [->|Hd].
      + rewrite plpgsql_steps_pair.
        rewrite (proj1 (IH s ltac:(lia))). reflexivity.
      + destruct (Ascii.eqb_spec d "=") as [->|Hd'].
        * rewrite plpgsql_steps_assign.
          rewrite (proj1 (IH s ltac:(lia))). reflexivity.
        * rewrite plpgsql_steps_single by assumption.
          change (Ch d :: map Ch s) with (map Ch (d :: s)).
          rewrite (proj1 (IH (d :: s) Hs)). reflexivity.
    - destruct (Ascii.eqb_spec c backslash) as [->|Hb].
      + exact (proj2 (IH s Hs)).
      + rewrite plpgsql_steps_other by assumption.
        rewrite (proj1 (IH s Hs)). reflexivity. }
  split; [exact Hfalse|].
  destruct (Ascii.eqb_spec c ":") as [->|Hc].
  - cbn [map escape_plpgsql_scan]. rewrite Ascii.eqb_refl.
    destruct s as [|d s]; [reflexivity|].
    cbn [map length] in *.
    destruct (Ascii.eqb_spec d ":") as [->|Hd].
    + rewrite plpgsql_steps_esc_pair.
      rewrite (proj1 (IH s ltac:(lia))). reflexivity.
    + destruct (Ascii.eqb_spec d "=") as [->|Hd'].
      * rewrite plpgsql_steps_esc_assign.
        rewrite (proj1 (IH s ltac:(lia))). reflexivity.
      * rewrite plpgsql_steps_esc_single by assumption.
        change (Ch d :: map Ch s) with (map Ch (d :: s)).
        rewrite (proj1 (IH (d :: s) Hs)). reflexivity.
  - cbn [map]. rewrite plpgsql_steps_esc by assumption.
    change (Ch c :: map Ch s) with (map Ch (c :: s)).
    rewrite Hfalse. cbn [escape_plpgsql_scan map].
    destruct (Ascii.eqb_spec c ":") as [|_]; [contradiction|].
    reflexivity.
Qed.

Lemma plpgsql_steps_scan (s : str) :
  restore 1 (lit "::") (plpgsql_restored2 s)
  = map Ch (escape_plpgsql_scan false s).
Proof.
  exact (proj1 (plpgsql_steps_scan_both (length s) s (le_n _))).
Qed.

(** ** Tokens that can serve as placeholders *)

Lemma holder_ok_nonempty (h : str) : holder_ok h = true -> h <> [].
Proof. intros H ->. discriminate. Qed.

Lemma holder_ok_free (h : str) (a : ascii) :
  holder_ok h = true -> In a (backslash :: lit ":=") -> ~ In a h.
Proof.
  unfold holder_ok. intros H Ha Hin.
  apply andb_true_iff in H as [_ H].
  rewrite forallb_forall in H. specialize (H a Hin).
  apply negb_true_iff in H.
  assert (mem_char a (backslash :: lit ":=") = true); [|congruence].
  unfold mem_char. apply existsb_exists. exists a.
  split; [exact Ha|apply Ascii.eqb_refl].
Qed.

Lemma holders_free (hs : nat -> str) (old : str) :
  (forall i, holder_ok (hs i) = true) ->
  incl old (backslash :: lit ":=") ->
  Forall (fun a => forall i, ~ In a (hs i)) old.
Proof.
  intros Hok Hincl. apply Forall_forall. intros a Ha i.
  apply holder_ok_free; [apply Hok|now apply Hincl].
Qed.

(** The text of a version-4 UUID can serve as a placeholder. *)
Lemma uuid4_char_free (i : nat) (c : ascii) :
  (if (i =? 8) || (i =? 13) || (i =? 18) || (i =? 23)
   then Ascii.eqb c "-"
   else if i =? 14 then Ascii.eqb c "4"
        else if i =? 19 then mem_char c (lit "89ab")
             else ishex c) = true ->
  negb (mem_char c (backslash :: lit ":=")) = true.
Proof.
  assert (Hhex : ishex c = true ->
                 negb (mem_char c (backslash :: lit ":=")) = true).
  { destruct c as [[] [] [] [] [] [] [] []]; vm_compute; congruence. }
  destruct ((i =? 8) || (i =? 13) || (i =? 18) || (i =? 23)).
  { intros H. apply Ascii.eqb_eq in H. now subst. }
  destruct (i =? 14).
  { intros H. apply Ascii.eqb_eq in H. now subst. }
  destruct (i =? 19); [|exact Hhex].
  destruct c as [[] [] [] [] [] [] [] []]; vm_compute; congruence.
Qed.

Lemma uuid4_holder_ok (h : str) : is_uuid4_text h = true -> holder_ok h = true.
Proof.
  unfold is_uuid4_text, holder_ok. intros H.
  apply andb_true_iff in H as [Hlen Hall].
  apply Nat.eqb_eq in Hlen. rewrite Hlen. cbn [Nat.eqb negb andb].
  assert (G : forall (l : str) (n a : nat),
             length l <= n ->
             forallb (fun ic : nat * ascii =>
               let (i, c) := ic in
               if (i =? 8) || (i =? 13) || (i =? 18) || (i =? 23)
               then Ascii.eqb c "-"
               else if i =? 14 then Ascii.eqb c "4"
                    else if i =? 19 then mem_char c (lit "89ab")
                         else ishex c) (combine (seq a n) l) = true ->
             forallb (fun c => negb (mem_char c (backslash :: lit ":="))) l
             = true).
  { induction l as [|c l IHl]; intros n a Hn Hf; [reflexivity|].
    destruct n as [|n]; [simpl in Hn; lia|].
    cbn [seq combine forallb] in Hf.
    apply andb_true_iff in Hf as [Hc Hl].
    cbn [forallb]. apply andb_true_iff. split.
    - now apply (uuid4_char_free a).
    - apply (IHl n (S a)); [simpl in Hn; lia|exact Hl]. }
  apply (G h 36 0); [lia|exact Hall].
Qed.

(** ** Texts without '-' cannot collide with UUID tokens *)

Lemma uuid4_char_dash (i : nat) (c : ascii) :
  (if (i =? 8) || (i =? 13) || (i =? 18) || (i =? 23)
   then Ascii.eqb c "-"
   else if i =? 14 then Ascii.eqb c "4"
        else if i =? 19 then mem_char c (lit "89ab")
             else ishex c) = true ->
  is_dash c = (i =? 8) || (i =? 13) || (i =? 18) || (i =? 23).
Proof.
  assert (Hhex : ishex c = true -> is_dash c = false).
  { destruct c as [[] [] [] [] [] [] [] []]; vm_compute; congruence. }
  destruct ((i =? 8) || (i =? 13) || (i =? 18) || (i =? 23)).
  { intros H. apply Ascii.eqb_eq in H. now subst. }
  destruct (i =? 14).
  { intros H. apply Ascii.eqb_eq in H. now subst. }
  destruct (i =? 19); [|exact Hhex].
  destruct c as [[] [] [] [] [] [] [] []]; vm_compute; congruence.
Qed.

Lemma uuid4_dashes_from (l : str) (n a : nat) :
  length l = n ->
  forallb (fun ic : nat * ascii =>
             let (i, c) := ic in
             if (i =? 8) || (i =? 13) || (i =? 18) || (i =? 23)
             then Ascii.eqb c "-"
             else if i =? 14 then Ascii.eqb c "4"
                  else if i =? 19 then mem_char c (lit "89ab")
                       else ishex c) (combine (seq a n) l) = true ->
  map is_dash l
  = map (fun i => (i =? 8) || (i =? 13) || (i =? 18) || (i =? 23)) (seq a n).
Proof.
  revert n a. induction l as [|c l IH]; intros n a Hn Hf.
  - simpl in Hn. now subst n.
  - destruct n as [|n]; [discriminate|].
    cbn [seq combine forallb] in Hf.
    apply andb_true_iff in Hf as [Hc Hl].
    cbn [map seq]. f_equal.
    + now apply uuid4_char_dash.
    + apply IH; [now injection Hn|exact Hl].
Qed.

Lemma uuid4_dashes (h : str) :
  is_uuid4_text h = true ->
  map is_dash h = uuid_dash_places /\ length h = 36.
Proof.
  unfold is_uuid4_text, uuid_dash_places. intros H.
  apply andb_true_iff in H as [Hlen Hall].
  apply Nat.eqb_eq in Hlen. split; [|exact Hlen].
  now apply uuid4_dashes_from.
Qed.

Lemma app_eq_length {A : Type} (a b x y : list A) :
  length a = length b -> a ++ x = b ++ y -> a = b.
Proof.
  revert b. induction a as [|c a IH]; intros [|d b] Hl E;
    try discriminate; [reflexivity|].
  injection E as -> E. f_equal. apply IH; [now injection Hl|exact E].
Qed.

Lemma begins_inside_intro (h pre r : str) :
  (forall k, k < length pre ->
             starts_with Ascii.eqb h (skipn k pre ++ r) = false) ->
  begins_inside h pre r = false.
Proof.
  induction pre as [|c pre IH]; intros H; [reflexivity|].
  cbn [begins_inside]. apply orb_false_iff. split.
  - apply (H 0). simpl. lia.
  - apply IH. intros k Hk. apply (H (S k)). simpl. lia.
Qed.

Section DashFree.
Variable hs : nat -> str.
Hypothesis hs_uuid : forall j, is_uuid4_text (hs j) = true.

Lemma starts_with_dashes (i : nat) (s : str) :
  starts_with Ascii.eqb (hs i) s = true ->
  exists r, map is_dash s = uuid_dash_places ++ r.
Proof.
  intros H. destruct (starts_with_inv _ Ascii.eqb_eq _ _ H) as [r ->].
  exists (map is_dash r).
  now rewrite map_app, (proj1 (uuid4_dashes _ (hs_uuid i))).
Qed.

(** No '-' among the first eight characters. *)
Lemma early_no_dash (i : nat) (t : list sym) :
  Forall (fun x => match x with Ch c => is_dash c = false | Hold _ => True end)
         t ->
  forall n, n < 8 -> nth_error (map is_dash (flat hs t)) n <> Some true.
Proof.
  induction 1 as [|x t Hx _ IH]; intros n Hn.
  - destruct n; discriminate.
  - change (flat hs (x :: t)) with (flat1 hs x ++ flat hs t).
    destruct x as [c|j]; cbn [flat1 app map].
    + destruct n as [|n]; cbn [nth_error].
      * rewrite Hx. discriminate.
      * apply IH. lia.
    + rewrite map_app, nth_error_app1.
      * rewrite (proj1 (uuid4_dashes _ (hs_uuid j))).
        do 8 (destruct n as [|n]; [discriminate|]). lia.
      * rewrite length_map, (proj2 (uuid4_dashes _ (hs_uuid j))). lia.
Qed.

Lemma token_clear_text (i : nat) (t : list sym) :
  Forall (token_clear hs i) t ->
  Forall (fun x => match x with Ch c => is_dash c = false | Hold _ => True end)
         t.
Proof.
  apply Forall_impl. intros [c|j]; simpl; auto.
Qed.

Lemma dash_free_occurs_only_at (i : nat) (t : list sym) :
  Forall (token_clear hs i) t -> occurs_only_at hs i t = true.
Proof.
  induction 1 as [|x t Hx Ht IH]; [reflexivity|].
  cbn [occurs_only_at]. rewrite IH, andb_true_r.
  destruct (sym_eqb x (Hold i)) eqn:Ex; [reflexivity|]. cbn [orb].
  apply negb_true_iff, begins_inside_intro. intros k Hk.
  pose proof (early_no_dash i t (token_clear_text i t Ht)) as Hearly.
  destruct (starts_with Ascii.eqb (hs i) (skipn k (flat1 hs x) ++ flat hs t))
    eqn:E; [exfalso|reflexivity].
  destruct x as [c|j]; cbn [flat1 token_clear] in *.
  - destruct k as [|k]; [|simpl in Hk; lia]. cbn [skipn app] in E.
    destruct (starts_with_dashes i _ E) as [r Hr].
    apply (Hearly 7); [lia|].
    apply (f_equal (fun l => nth_error l 8)) in Hr.
    cbn [map nth_error] in Hr. exact Hr.
  - destruct Hx as [->|Hx].
    { cbn [sym_eqb] in Ex. rewrite Nat.eqb_refl in Ex. discriminate. }
    destruct (uuid4_dashes _ (hs_uuid j)) as [Hd Hlen].
    destruct (uuid4_dashes _ (hs_uuid i)) as [_ Hlen'].
    destruct k as [|k].
    { cbn [skipn] in E.
      destruct (starts_with_inv _ Ascii.eqb_eq _ _ E) as [r Hr].
      apply Hx. apply (app_eq_length _ _ _ _ (eq_trans Hlen (eq_sym Hlen')) Hr). }
    destruct (starts_with_dashes i _ E) as [r Hr].
    rewrite map_app, <- skipn_map, Hd in Hr.
    rewrite Hlen in Hk.
    do 27 (destruct k as [|k]; [discriminate Hr|]).
    do 8 (destruct k as [|k];
          [apply (f_equal (fun l => nth_error l 8)) in Hr;
           rewrite nth_error_app2 in Hr by (vm_compute; lia);
           change (nth_error (uuid_dash_places ++ r) 8) with (Some true) in Hr;
           refine (Hearly _ _ Hr); vm_compute; lia|]).
    lia.
Qed.
End DashFree.

Lemma Forall_replace_from {A : Type} (eqA : A -> A -> bool) (P : A -> Prop)
  (old new : list A) (k : nat) (s : list A) :
  Forall P new -> Forall P s -> Forall P (replace_from eqA old new k s).
Proof.
  intros Hnew Hs. revert k.
  induction Hs as [|c s Hc Hs IH]; intros k; [constructor|].
  cbn [replace_from]. destruct k as [|k]; [|apply IH].
  destruct (starts_with eqA old (c :: s)).
  - apply Forall_app. split; [exact Hnew|apply IH].
  - constructor; [exact Hc|apply IH].
Qed.

Lemma Forall_replace {A : Type} (eqA : A -> A -> bool) (P : A -> Prop)
  (old new s : list A) :
  Forall P new -> Forall P s -> Forall P (replace eqA old new s).
Proof.
  intros Hnew Hs. unfold replace. destruct old as [|a old].
  - apply Forall_app. split; [exact Hnew|].
    apply Forall_flat_map. apply (Forall_impl _ (P := P)); [|exact Hs].
    intros c Hc. now constructor.
  - now apply Forall_replace_from.
Qed.

Lemma no_dash_chars (R : nat -> Prop) (sql : str) :
  mem_char "-" sql = false ->
  Forall (fun x => match x with
                   | Ch c => is_dash c = false
                   | Hold j => R j
                   end) (map Ch sql).
Proof.
  induction sql as [|c sql IH]; intros H; [constructor|].
  unfold mem_char in H. cbn [existsb] in H.
  apply orb_false_iff in H as [Hc Hs].
  cbn [map]. constructor; [|now apply IH].
  unfold is_dash. now rewrite Ascii.eqb_sym.
Qed.

(** A text without '-' cannot collide with the token of
    [escape_colon_for_sql]. *)
Lemma dash_free_no_collision_sql (holder sql : str) :
  is_uuid4_text holder = true ->
  mem_char "-" sql = false ->
  no_collision_sql holder sql = true.
Proof.
  intros Hu Hd. unfold no_collision_sql.
  apply dash_free_occurs_only_at; [intros j; exact Hu|].
  apply (Forall_impl _ (P := fun x => match x with
                                      | Ch c => is_dash c = false
                                      | Hold j => j = 1
                                      end)).
  { intros [c|j]; cbn [token_clear]; [auto|]. intros ->. now left. }
  unfold sql_escaped, escape_single, protect.
  apply Forall_replace; [now repeat constructor|].
  apply Forall_replace; [now repeat constructor|].
  now apply no_dash_chars.
Qed.

(** A text without '-' cannot collide with three different tokens of
    [escape_colon_for_plpgsql]. *)
Lemma dash_free_no_collision_plpgsql (holder1 holder2 holder3 sql : str) :
  is_uuid4_text holder1 = true ->
  is_uuid4_text holder2 = true ->
  is_uuid4_text holder3 = true ->
  holder1 <> holder2 -> holder1 <> holder3 -> holder2 <> holder3 ->
  mem_char "-" sql = false ->
  no_collision_plpgsql holder1 holder2 holder3 sql = true.
Proof.
  intros U1 U2 U3 D12 D13 D23 Hd. unfold no_collision_plpgsql.
  set (hs := holders3 holder1 holder2 holder3).
  assert (Hu : forall j, is_uuid4_text (hs j) = true).
  { intros [|[|[|j]]]; assumption. }
  set (Q := fun x => match x with
                     | Ch c => is_dash c = false
                     | Hold j => j = 1 \/ j = 2 \/ j = 3
                     end).
  assert (Hclear : forall i t, i = 1 \/ i = 2 \/ i = 3 ->
                               Forall Q t -> Forall (token_clear hs i) t).
  { intros i t Hi. apply Forall_impl. intros [c|j]; cbn [token_clear Q]; [auto|].
    intros Hj.
    destruct Hi as [Hi|[Hi|Hi]], Hj as [Hj|[Hj|Hj]]; subst i j;
      try (now left); right; unfold hs; cbn [holders3]; congruence. }
  assert (H4 : Forall Q (plpgsql_escaped sql)).
  { unfold plpgsql_escaped, escape_single, protect.
    apply Forall_replace; [now repeat constructor|].
    do 3 (apply Forall_replace;
          [constructor; [unfold Q; auto|constructor]|]).
    now apply (no_dash_chars (fun j => j = 1 \/ j = 2 \/ j = 3)). }
  assert (H5 : Forall Q (plpgsql_restored3 sql)).
  { unfold plpgsql_restored3, restore.
    apply Forall_replace; [now repeat constructor|exact H4]. }
  assert (H6 : Forall Q (plpgsql_restored2 sql)).
  { unfold plpgsql_restored2, restore.
    apply Forall_replace; [now repeat constructor|exact H5]. }
  rewrite !(dash_free_occurs_only_at hs Hu); auto.
Qed.

(** ** The escapers and their reference semantics *)

Lemma escape_colon_for_sql_sim (holder sql : str) :
  holder_ok holder = true ->
  no_collision_sql holder sql = true ->
  escape_colon_for_sql holder sql = escape_sql_scan sql.
Proof.
  intros Hok Hfree. unfold escape_colon_for_sql.
  set (hs := holders1 holder).
  assert (Hne : forall i, hs i <> []).
  { intros i. now apply holder_ok_nonempty. }
  assert (Hall : forall i, holder_ok (hs i) = true) by (intros; exact Hok).
  assert (E1 : replace Ascii.eqb (lit "::") holder sql
               = flat hs (protect (lit "::") 1 (map Ch sql))).
  { unfold protect. rewrite (replace_flat_chars hs Hne).
    - rewrite flat_chars. cbn. now rewrite app_nil_r.
    - discriminate.
    - apply holders_free; [exact Hall|].
      intros a Ha. cbn in *. tauto. }
  rewrite E1.
  assert (E2 : replace Ascii.eqb (lit ":") (backslash :: lit ":")
                 (flat hs (protect (lit "::") 1 (map Ch sql)))
               = flat hs (sql_escaped sql)).
  { unfold sql_escaped, escape_single.
    rewrite (replace_flat_chars hs Hne).
    - now rewrite flat_chars.
    - discriminate.
    - apply holders_free; [exact Hall|].
      intros a Ha. cbn in *. tauto. }
  rewrite E2.
  change holder with (hs 1) at 1.
  rewrite (replace_flat_holder hs Hne 1 (lit "::") _ Hfree).
  fold (restore 1 (lit "::") (sql_escaped sql)).
  now rewrite sql_steps_scan, flat_chars.
Qed.

Lemma escape_colon_for_plpgsql_sim (holder1 holder2 holder3 sql : str) :
  holder_ok holder1 = true ->
  holder_ok holder2 = true ->
  holder_ok holder3 = true ->
  no_collision_plpgsql holder1 holder2 holder3 sql = true ->
  escape_colon_for_plpgsql holder1 holder2 holder3 sql
  = escape_plpgsql_scan false sql.
Proof.
  intros Hok1 Hok2 Hok3 Hfree. unfold escape_colon_for_plpgsql.
  unfold no_collision_plpgsql in Hfree.
  set (hs := holders3 holder1 holder2 holder3) in *.
  apply andb_true_iff in Hfree as [Hfree Hfree1].
  apply andb_true_iff in Hfree as [Hfree3 Hfree2].
  assert (Hall : forall i, holder_ok (hs i) = true).
  { intros [|[|[|i]]]; assumption. }
  assert (Hne : forall i, hs i <> []).
  { intros i. now apply holder_ok_nonempty. }
  assert (P : forall (old : str) (i : nat) (t : list sym),
             old <> [] -> incl old (backslash :: lit ":=") ->
             replace Ascii.eqb old (hs i) (flat hs t)
             = flat hs (protect old i t)).
  { intros old i t Hold Hincl. unfold protect.
    rewrite (replace_flat_chars hs Hne _ _ _ Hold).
    - cbn. now rewrite app_nil_r.
    - now apply holders_free. }
  assert (E : forall t,
             replace Ascii.eqb (lit ":") (backslash :: lit ":") (flat hs t)
             = flat hs (escape_single t)).
  { intros t. unfold escape_single.
    rewrite (replace_flat_chars hs Hne).
    - now rewrite flat_chars.
    - discriminate.
    - apply holders_free; [exact Hall|].
      intros a Ha. cbn in *. tauto. }
  assert (E1 : replace Ascii.eqb (lit "::") holder1 sql
               = flat hs (protect (lit "::") 1 (map Ch sql))).
  { rewrite <- P; [|discriminate|intros a Ha; cbn in *; tauto].
    now rewrite flat_chars. }
  rewrite E1.
  assert (E2 : forall t, replace Ascii.eqb (lit ":=") holder2 (flat hs t)
                         = flat hs (protect (lit ":=") 2 t)).
  { intros t.
    rewrite <- P; [reflexivity|discriminate|intros a Ha; cbn in *; tauto]. }
  rewrite E2.
  assert (E3 : forall t,
             replace Ascii.eqb (backslash :: lit ":") holder3 (flat hs t)
             = flat hs (protect (backslash :: lit ":") 3 t)).
  { intros t.
    rewrite <- P; [reflexivity|discriminate|intros a Ha; cbn in *; tauto]. }
  rewrite E3, E. fold (plpgsql_escaped sql).
  change holder3 with (hs 3).
  rewrite (replace_flat_holder hs Hne 3 _ _ Hfree3).
  fold (restore 3 (backslash :: lit ":") (plpgsql_escaped sql)).
  fold (plpgsql_restored3 sql).
  change holder2 with (hs 2).
  rewrite (replace_flat_holder hs Hne 2 _ _ Hfree2).
  fold (restore 2 (lit ":=") (plpgsql_restored3 sql)).
  fold (plpgsql_restored2 sql).
  change holder1 with (hs 1).
  rewrite (replace_flat_holder hs Hne 1 _ _ Hfree1).
  fold (restore 1 (lit "::") (plpgsql_restored2 sql)).
  now rewrite plpgsql_steps_scan, flat_chars.
Qed.

Lemma escape_colon_for_plpgsql_oob_scan (sql : str) :
  escape_colon_for_plpgsql_oob sql = escape_plpgsql_scan false sql.
Proof.
  unfold escape_colon_for_plpgsql_oob, chars_of.
  now rewrite plpgsql_steps_scan, flat_chars.
Qed.

(** C4, as stated, fails: the token is written into the text before it is
    looked for.  The token [uuid_e] does not occur in [sample_cast], whose
    only colons are the pair at its end; once the pair is replaced by the
    token, the text begins with the token, and the restoring step puts the
    pair there: the pair is not left where it was. *)
Lemma escape_colon_for_sql_pair_lost :
  is_uuid4_text uuid_e = true
  /\ str_in Ascii.eqb uuid_e sample_cast = false
  /\ escape_sql_scan sample_cast = sample_cast
  /\ escape_colon_for_sql uuid_e sample_cast
     = lit "::-2345-4678-9abc-0000abcdef01"
  /\ escape_colon_for_sql uuid_e sample_cast <> escape_sql_scan sample_cast.
Proof.
  repeat split; try (vm_compute; reflexivity).
  vm_compute. discriminate.
Qed.

(** C4, amended.  With the token [escape_colon_for_sql] drew free of
    collisions, its result is the one-pass scan of the input: every colon
    outside a pair receives exactly one backslash and every pair of colons
    is kept as it is.  In particular a text that begins with [https://]
    has the colon of the URL escaped once. *)
Theorem escape_colon_for_sql_single_colons (holder sql : str) :
  is_uuid4_text holder = true ->
  no_collision_sql holder sql = true ->
  escape_colon_for_sql holder sql = escape_sql_scan sql
  /\ (forall rest, sql = lit "https://" ++ rest ->
        escape_colon_for_sql holder sql
        = lit "https\://" ++ escape_sql_scan rest).
Proof.
  intros Hu Hfree.
  assert (E : escape_colon_for_sql holder sql = escape_sql_scan sql).
  { apply escape_colon_for_sql_sim; [now apply uuid4_holder_ok|exact Hfree]. }
  split; [exact E|].
  intros rest ->. rewrite E. reflexivity.
Qed.

Lemma escape_colon_for_sql_single_colons_witness :
  is_uuid4_text uuid_a = true
  /\ no_collision_sql uuid_a (lit "https://" ++ sample_url) = true
  /\ escape_colon_for_sql uuid_a (lit "https://" ++ sample_url)
     = lit "https\://" ++ escape_sql_scan sample_url.
Proof.
  split; [vm_compute; reflexivity|].
  split; [vm_compute; reflexivity|].
  apply (escape_colon_for_sql_single_colons uuid_a
           (lit "https://" ++ sample_url));
    [vm_compute; reflexivity|vm_compute; reflexivity|reflexivity].
Defined.

(** C5, as stated, fails: none of the three tokens is checked.  With
    [uuid_e] as the first token, which [sample_cast] does not contain, the
    pair of colons that ends the text is moved to its start. *)
Lemma escape_colon_for_plpgsql_pair_lost :
  is_uuid4_text uuid_e = true
  /\ is_uuid4_text uuid_b = true
  /\ is_uuid4_text uuid_c = true
  /\ str_in Ascii.eqb uuid_e sample_cast = false
  /\ str_in Ascii.eqb uuid_b sample_cast = false
  /\ str_in Ascii.eqb uuid_c sample_cast = false
  /\ escape_plpgsql_scan false sample_cast = sample_cast
  /\ escape_colon_for_plpgsql uuid_e uuid_b uuid_c sample_cast
     = lit "::-2345-4678-9abc-0000abcdef01"
  /\ escape_colon_for_plpgsql uuid_e uuid_b uuid_c sample_cast
     <> escape_plpgsql_scan false sample_cast.
Proof.
  repeat split; try (vm_compute; reflexivity).
  vm_compute. discriminate.
Qed.

(** C5, amended.  With the three tokens [escape_colon_for_plpgsql] drew
    free of collisions, its result is the one-pass scan for procedural
    bodies: a pair of colons, a colon followed by '=' and a colon behind a
    backslash are kept as they are and every other colon receives a
    backslash.  The order of the protecting steps shows where the
    sequences overlap: the pair is protected first, so that in [::=] the
    pair and not the assignment is kept whole, and in a backslash followed
    by a pair the pair is kept and no colon is escaped. *)
Theorem escape_colon_for_plpgsql_protects
  (holder1 holder2 holder3 sql : str) :
  is_uuid4_text holder1 = true ->
  is_uuid4_text holder2 = true ->
  is_uuid4_text holder3 = true ->
  no_collision_plpgsql holder1 holder2 holder3 sql = true ->
  escape_colon_for_plpgsql holder1 holder2 holder3 sql
  = escape_plpgsql_scan false sql
  /\ (forall rest, sql = lit "::=" ++ rest ->
        escape_colon_for_plpgsql holder1 holder2 holder3 sql
        = lit "::=" ++ escape_plpgsql_scan false rest)
  /\ (forall rest, sql = backslash :: lit "::" ++ rest ->
        escape_colon_for_plpgsql holder1 holder2 holder3 sql
        = backslash :: lit "::" ++ escape_plpgsql_scan false rest).
Proof.
  intros H1 H2 H3 Hfree.
  assert (E : escape_colon_for_plpgsql holder1 holder2 holder3 sql
              = escape_plpgsql_scan false sql).
  { apply escape_colon_for_plpgsql_sim;
      try (now apply uuid4_holder_ok); exact Hfree. }
  split; [exact E|].
  split; intros rest ->; rewrite E; reflexivity.
Qed.

Lemma escape_colon_for_plpgsql_protects_witness :
  no_collision_plpgsql uuid_a uuid_b uuid_c (lit "::=" ++ sample_body) = true
  /\ escape_colon_for_plpgsql uuid_a uuid_b uuid_c (lit "::=" ++ sample_body)
     = lit "::=" ++ escape_plpgsql_scan false sample_body.
Proof.
  split; [vm_compute; reflexivity|].
  apply (escape_colon_for_plpgsql_protects uuid_a uuid_b uuid_c
           (lit "::=" ++ sample_body));
    [vm_compute; reflexivity..|reflexivity].
Defined.

(** C6, as stated, fails: the token is not checked against the input.
    For an input that contains the token the call drew, the result differs
    from the result with a token the input does not contain. *)
Lemma placeholder_collision :
  is_uuid4_text uuid_a = true
  /\ is_uuid4_text uuid_b = true
  /\ str_in Ascii.eqb uuid_a (lit "SELECT '" ++ uuid_a ++ lit "'") = true
  /\ str_in Ascii.eqb uuid_b (lit "SELECT '" ++ uuid_a ++ lit "'") = false
  /\ escape_colon_for_sql uuid_a (lit "SELECT '" ++ uuid_a ++ lit "'")
     = lit "SELECT '::'"
  /\ escape_colon_for_sql uuid_a (lit "SELECT '" ++ uuid_a ++ lit "'")
     <> escape_colon_for_sql uuid_b (lit "SELECT '" ++ uuid_a ++ lit "'").
Proof.
  repeat split; try (vm_compute; reflexivity).
  vm_compute. discriminate.
Qed.

(** C6, amended.  When the tokens drawn do not collide with the texts they
    are restored from, the results of both escapers do not depend on which
    tokens were drawn. *)
Theorem escapers_independent_of_tokens
  (h h' g1 g2 g3 g1' g2' g3' sql : str) :
  is_uuid4_text h = true -> is_uuid4_text h' = true ->
  is_uuid4_text g1 = true -> is_uuid4_text g2 = true ->
  is_uuid4_text g3 = true -> is_uuid4_text g1' = true ->
  is_uuid4_text g2' = true -> is_uuid4_text g3' = true ->
  no_collision_sql h sql = true ->
  no_collision_sql h' sql = true ->
  no_collision_plpgsql g1 g2 g3 sql = true ->
  no_collision_plpgsql g1' g2' g3' sql = true ->
  escape_colon_for_sql h sql = escape_colon_for_sql h' sql
  /\ escape_colon_for_plpgsql g1 g2 g3 sql
     = escape_colon_for_plpgsql g1' g2' g3' sql.
Proof.
  intros Uh Uh' U1 U2 U3 U1' U2' U3' Fh Fh' Fg Fg'.
  split.
  - rewrite !escape_colon_for_sql_sim; auto using uuid4_holder_ok.
  - rewrite !escape_colon_for_plpgsql_sim; auto using uuid4_holder_ok.
Qed.

Lemma escapers_independent_of_tokens_witness :
  no_collision_sql uuid_a sample_body = true
  /\ no_collision_sql uuid_d sample_body = true
  /\ no_collision_plpgsql uuid_a uuid_b uuid_c sample_body = true
  /\ no_collision_plpgsql uuid_b uuid_c uuid_d sample_body = true
  /\ escape_colon_for_sql uuid_a sample_body
     = escape_colon_for_sql uuid_d sample_body
  /\ escape_colon_for_plpgsql uuid_a uuid_b uuid_c sample_body
     = escape_colon_for_plpgsql uuid_b uuid_c uuid_d sample_body.
Proof.
  do 4 (split; [vm_compute; reflexivity|]).
  apply (escapers_independent_of_tokens
           uuid_a uuid_d uuid_a uuid_b uuid_c uuid_b uuid_c uuid_d
           sample_body); vm_compute; reflexivity.
Defined.

(** ** Facts about stripping *)

Section StripFacts.
Context {A : Type} (p : A -> bool).

Lemma forallb_rev_true (w : list A) :
  forallb p w = true -> forallb p (rev w) = true.
Proof.
  rewrite !forallb_forall. intros H x Hx. apply H. now apply in_rev.
Qed.

Lemma lstrip_by_absorb (w x : list A) :
  forallb p w = true -> lstrip_by p (w ++ x) = lstrip_by p x.
Proof.
  induction w as [|c w IH]; simpl; intros H; [reflexivity|].
  apply andb_true_iff in H as [Hc Hw]. rewrite Hc. now apply IH.
Qed.

Lemma lstrip_by_stop (x : list A) :
  hd_ok p x = true -> lstrip_by p x = x.
Proof.
  destruct x as [|c x]; simpl; intros H; [reflexivity|].
  apply negb_true_iff in H. now rewrite H.
Qed.

Lemma lstrip_by_all (w : list A) :
  forallb p w = true -> lstrip_by p w = [].
Proof.
  intros H. rewrite <- (app_nil_r w). now rewrite lstrip_by_absorb.
Qed.

Lemma hd_ok_lstrip_by (s : list A) : hd_ok p (lstrip_by p s) = true.
Proof.
  induction s as [|c s IH]; simpl; [reflexivity|].
  destruct (p c) eqn:E; [exact IH|]. simpl. now rewrite E.
Qed.

Lemma lstrip_by_split (s : list A) :
  exists w, s = w ++ lstrip_by p s /\ forallb p w = true.
Proof.
  induction s as [|c s [w [Hs Hw]]]; [now exists []|].
  simpl. destruct (p c) eqn:E.
  - exists (c :: w). simpl. rewrite E, Hw. split; [now f_equal|reflexivity].
  - now exists [].
Qed.

Lemma lstrip_by_anchor (j c y : list A) :
  hd_not p c = true ->
  lstrip_by p (j ++ c ++ y) = lstrip_by p j ++ c ++ y.
Proof.
  intros Hc. destruct c as [|a c]; [discriminate|].
  simpl in Hc. apply negb_true_iff in Hc.
  induction j as [|b j IH]; simpl.
  - now rewrite Hc.
  - destruct (p b); [exact IH|reflexivity].
Qed.

Lemma lstrip_by_length (s : list A) : length (lstrip_by p s) <= length s.
Proof.
  induction s as [|c s IH]; simpl; [lia|].
  destruct (p c); simpl; lia.
Qed.

Lemma lstrip_by_shorter (s : list A) :
  hd_ok p s = false -> length (lstrip_by p s) < length s.
Proof.
  destruct s as [|c s]; simpl; [discriminate|]. intros H.
  apply negb_false_iff in H. rewrite H.
  pose proof (lstrip_by_length s). lia.
Qed.

Lemma rstrip_by_absorb (x w : list A) :
  forallb p w = true -> rstrip_by p (x ++ w) = rstrip_by p x.
Proof.
  intros H. unfold rstrip_by. rewrite rev_app_distr, lstrip_by_absorb.
  - reflexivity.
  - now apply forallb_rev_true.
Qed.

Lemma rstrip_by_stop (x : list A) :
  last_ok p x = true -> rstrip_by p x = x.
Proof.
  intros H. unfold rstrip_by. rewrite lstrip_by_stop by exact H.
  apply rev_involutive.
Qed.

Lemma rstrip_by_all (w : list A) :
  forallb p w = true -> rstrip_by p w = [].
Proof.
  intros H. unfold rstrip_by. rewrite lstrip_by_all; [reflexivity|].
  now apply forallb_rev_true.
Qed.

Lemma last_ok_rstrip_by (s : list A) : last_ok p (rstrip_by p s) = true.
Proof.
  unfold last_ok, rstrip_by. rewrite rev_involutive.
  apply hd_ok_lstrip_by.
Qed.

Lemma rstrip_by_split (s : list A) :
  exists w, s = rstrip_by p s ++ w /\ forallb p w = true.
Proof.
  destruct (lstrip_by_split (rev s)) as [w [Hs Hw]].
  exists (rev w). split.
  - unfold rstrip_by. rewrite <- rev_app_distr, <- Hs.
    symmetry. apply rev_involutive.
  - now apply forallb_rev_true.
Qed.

Lemma rstrip_by_anchor (x c j : list A) :
  last_not p c = true ->
  rstrip_by p (x ++ c ++ j) = x ++ c ++ rstrip_by p j.
Proof.
  intros Hc. unfold rstrip_by.
  rewrite !rev_app_distr, <- app_assoc.
  rewrite lstrip_by_anchor by exact Hc.
  rewrite !rev_app_distr, !rev_involutive. now rewrite app_assoc.
Qed.

Lemma rstrip_by_length (s : list A) : length (rstrip_by p s) <= length s.
Proof.
  unfold rstrip_by. rewrite length_rev, <- (length_rev s).
  apply lstrip_by_length.
Qed.

Lemma rstrip_by_shorter (s : list A) :
  last_ok p s = false -> length (rstrip_by p s) < length s.
Proof.
  intros H. unfold rstrip_by. rewrite length_rev, <- (length_rev s).
  now apply lstrip_by_shorter.
Qed.

(** Stripping at one end leaves the other end as it is. *)
Lemma hd_ok_rstrip_by (q : A -> bool) (s : list A) :
  hd_ok q s = true -> hd_ok q (rstrip_by p s) = true.
Proof.
  destruct (rstrip_by_split s) as [w [Hs _]]. intros H.
  destruct (rstrip_by p s) as [|c r]; [reflexivity|].
  rewrite Hs in H. exact H.
Qed.

Lemma last_ok_lstrip_by (q : A -> bool) (s : list A) :
  last_ok q s = true -> last_ok q (lstrip_by p s) = true.
Proof.
  destruct (lstrip_by_split s) as [w [Hs _]]. unfold last_ok. intros H.
  destruct (rev (lstrip_by p s)) as [|c r] eqn:E; [reflexivity|].
  rewrite Hs, rev_app_distr, E in H. exact H.
Qed.
End StripFacts.

(** ** [strip_double_quotes] *)

Lemma space_not_dquote (c : ascii) : isspace c = true -> is_dquote c = false.
Proof.
  destruct c as [[] [] [] [] [] [] [] []]; vm_compute; congruence.
Qed.

Lemma dquote_not_space (c : ascii) : is_dquote c = true -> isspace c = false.
Proof.
  destruct c as [[] [] [] [] [] [] [] []]; vm_compute; congruence.
Qed.

Lemma spaces_hd_ok_dquote (w : str) :
  forallb isspace w = true -> hd_ok is_dquote w = true.
Proof.
  destruct w as [|c w]; simpl; intros H; [reflexivity|].
  apply andb_true_iff in H as [Hc _].
  now rewrite (space_not_dquote c Hc).
Qed.

Lemma strip_length (s : str) : length (strip s) <= length s.
Proof.
  unfold strip, rstrip, lstrip.
  pose proof (rstrip_by_length isspace (lstrip_by isspace s)).
  pose proof (lstrip_by_length isspace s). lia.
Qed.

Lemma strip_ends (s : str) :
  hd_ok isspace (strip s) = true /\ last_ok isspace (strip s) = true.
Proof.
  unfold strip, rstrip, lstrip. split.
  - apply hd_ok_rstrip_by, hd_ok_lstrip_by.
  - apply last_ok_rstrip_by.
Qed.

Lemma strip_stop (s : str) :
  hd_ok isspace s = true -> last_ok isspace s = true -> strip s = s.
Proof.
  intros H1 H2. unfold strip, rstrip, lstrip.
  rewrite (lstrip_by_stop _ _ H1). now apply rstrip_by_stop.
Qed.

Lemma strip_idempotent (s : str) : strip (strip s) = strip s.
Proof. destruct (strip_ends s). now apply strip_stop. Qed.

Lemma strip_anchor (jl c jr : str) :
  hd_not isspace c = true -> last_not isspace c = true ->
  strip (jl ++ c ++ jr) = lstrip jl ++ c ++ rstrip jr.
Proof.
  intros H1 H2. unfold strip, rstrip, lstrip.
  rewrite lstrip_by_anchor by exact H1.
  now rewrite rstrip_by_anchor by exact H2.
Qed.

Lemma strip_double_quotes_unfold (sql : str) :
  strip_double_quotes sql
  = strip (lstrip_by is_dquote (strip (rstrip_by is_dquote (strip sql)))).
Proof. reflexivity. Qed.

(** What is left of the whitespace and quotes before and after the core. *)
Lemma left_junk_gone (w1 q w2 : str) :
  forallb isspace w1 = true -> forallb is_dquote q = true ->
  forallb isspace w2 = true ->
  lstrip (lstrip_by is_dquote (lstrip (lstrip (w1 ++ q ++ w2)))) = [].
Proof.
  intros H1 Hq H2. unfold lstrip.
  rewrite (lstrip_by_absorb _ _ _ H1).
  destruct q as [|d q].
  - cbn [app]. rewrite (lstrip_by_all _ _ H2). reflexivity.
  - cbn [forallb] in Hq. apply andb_true_iff in Hq as [Hd Hq].
    assert (Hs : hd_ok isspace ((d :: q) ++ w2) = true).
    { simpl. now rewrite (dquote_not_space d Hd). }
    rewrite !(lstrip_by_stop _ _ Hs).
    rewrite lstrip_by_absorb by (simpl; now rewrite Hd).
    rewrite (lstrip_by_stop is_dquote) by now apply spaces_hd_ok_dquote.
    now apply lstrip_by_all.
Qed.

Lemma right_junk_gone (w3 q w4 : str) :
  forallb isspace w3 = true -> forallb is_dquote q = true ->
  forallb isspace w4 = true ->
  rstrip (rstrip (rstrip_by is_dquote (rstrip (w3 ++ q ++ w4)))) = [].
Proof.
  intros H3 Hq H4. unfold rstrip, rstrip_by.
  rewrite !rev_involutive, !rev_app_distr, <- app_assoc.
  apply forallb_rev_true in H3, Hq, H4.
  rewrite (lstrip_by_absorb _ _ _ H4).
  destruct (rev q) as [|d q'].
  - cbn [app]. rewrite (lstrip_by_all _ _ H3). reflexivity.
  - cbn [forallb] in Hq. apply andb_true_iff in Hq as [Hd Hq].
    assert (Hs : hd_ok isspace ((d :: q') ++ rev w3) = true).
    { simpl. now rewrite (dquote_not_space d Hd). }
    rewrite (lstrip_by_stop _ _ Hs).
    rewrite lstrip_by_absorb by (simpl; now rewrite Hd).
    rewrite (lstrip_by_stop is_dquote) by now apply spaces_hd_ok_dquote.
    rewrite (lstrip_by_all _ _ H3). reflexivity.
Qed.

Lemma repeat_dquote (n : nat) : forallb is_dquote (repeat dquote n) = true.
Proof. induction n; simpl; [reflexivity|exact IHn]. Qed.

(** C8, as stated, fails: [rstrip] and [lstrip] with a character argument
    remove the whole run of that character.  With two double quotes at
    each end nothing of them is kept, where the reading of at most one
    quote at each end keeps the inner ones. *)
Lemma strip_double_quotes_not_one_layer :
  strip_double_quotes ([dquote; dquote] ++ lit "a" ++ [dquote; dquote])
  = lit "a"
  /\ strip_double_quotes_one_layer
       ([dquote; dquote] ++ lit "a" ++ [dquote; dquote])
     = [dquote] ++ lit "a" ++ [dquote]
  /\ strip_double_quotes ([dquote; dquote] ++ lit "a" ++ [dquote; dquote])
     <> strip_double_quotes_one_layer
          ([dquote; dquote] ++ lit "a" ++ [dquote; dquote]).
Proof.
  repeat split; try reflexivity. vm_compute. discriminate.
Qed.

(** C8, amended.  [strip_double_quotes] removes the whole run of double
    quotes at each end, each end on its own ([n] and [m] are independent
    and may be 0), with the whitespace before and after each run: what is
    left is the core text between them. *)
Theorem strip_double_quotes_runs (w1 w2 w3 w4 c : str) (n m : nat) :
  forallb isspace w1 = true -> forallb isspace w2 = true ->
  forallb isspace w3 = true -> forallb isspace w4 = true ->
  core_text c = true ->
  strip_double_quotes
    (w1 ++ repeat dquote n ++ w2 ++ c ++ w3 ++ repeat dquote m ++ w4)
  = c.
Proof.
  intros H1 H2 H3 H4 Hc. unfold core_text in Hc.
  apply andb_true_iff in Hc as [Hc Hlq].
  apply andb_true_iff in Hc as [Hc Hls].
  apply andb_true_iff in Hc as [Hhs Hhq].
  assert (E : w1 ++ repeat dquote n ++ w2 ++ c ++ w3 ++ repeat dquote m ++ w4
              = (w1 ++ repeat dquote n ++ w2) ++ c
                  ++ (w3 ++ repeat dquote m ++ w4))
    by now rewrite <- !app_assoc.
  rewrite E. clear E.
  rewrite strip_double_quotes_unfold.
  rewrite (strip_anchor _ _ _ Hhs Hls).
  rewrite (rstrip_by_anchor _ _ _ _ Hlq).
  rewrite (strip_anchor _ _ _ Hhs Hls).
  rewrite (lstrip_by_anchor _ _ _ _ Hhq).
  rewrite (strip_anchor _ _ _ Hhs Hls).
  rewrite left_junk_gone, right_junk_gone; auto using repeat_dquote.
  now rewrite app_nil_r.
Qed.

Lemma strip_double_quotes_runs_witness :
  strip_double_quotes
    (lit " " ++ repeat dquote 2 ++ lit "  " ++ lit "my table" ++ []
       ++ repeat dquote 3 ++ lit " ")
  = lit "my table".
Proof.
  apply (strip_double_quotes_runs (lit " ") (lit "  ") [] (lit " ")
           (lit "my table") 2 3); reflexivity.
Defined.

(** C9, as stated, fails: when whitespace separates two quotes at one end,
    each application removes one more layer. *)
Lemma strip_double_quotes_not_idempotent :
  strip_double_quotes ([dquote] ++ lit " " ++ [dquote] ++ lit "a")
  = [dquote] ++ lit "a"
  /\ strip_double_quotes
       (strip_double_quotes ([dquote] ++ lit " " ++ [dquote] ++ lit "a"))
     = lit "a"
  /\ strip_double_quotes
       (strip_double_quotes ([dquote] ++ lit " " ++ [dquote] ++ lit "a"))
     <> strip_double_quotes ([dquote] ++ lit " " ++ [dquote] ++ lit "a").
Proof.
  repeat split; try reflexivity. vm_compute. discriminate.
Qed.

(** C9, amended.  A second application of [strip_double_quotes] changes
    nothing exactly when the result of the first has no double quote at
    either end. *)
Theorem strip_double_quotes_twice (s : str) :
  strip_double_quotes (strip_double_quotes s) = strip_double_quotes s
  <-> quote_free_ends (strip_double_quotes s) = true.
Proof.
  set (r := strip_double_quotes s).
  assert (Hends : hd_ok isspace r = true /\ last_ok isspace r = true).
  { unfold r. rewrite strip_double_quotes_unfold. apply strip_ends. }
  destruct Hends as [Hh Hl].
  rewrite strip_double_quotes_unfold, (strip_stop r Hh Hl).
  unfold quote_free_ends. split.
  - intros E.
    destruct (last_ok is_dquote r) eqn:El.
    + rewrite (rstrip_by_stop _ _ El), (strip_stop r Hh Hl) in E.
      destruct (hd_ok is_dquote r) eqn:Eh; [reflexivity|].
      pose proof (lstrip_by_shorter _ _ Eh) as Hlen.
      pose proof (strip_length (lstrip_by is_dquote r)) as Hlen'.
      rewrite E in Hlen'. lia.
    + pose proof (rstrip_by_shorter _ _ El) as Hlen.
      pose proof (strip_length (rstrip_by is_dquote r)) as H1.
      pose proof (lstrip_by_length is_dquote
                    (strip (rstrip_by is_dquote r))) as H2.
      pose proof (strip_length
                    (lstrip_by is_dquote (strip (rstrip_by is_dquote r))))
        as H3.
      rewrite E in H3. lia.
  - intros E. apply andb_true_iff in E as [Eh El].
    rewrite (rstrip_by_stop _ _ El), (strip_stop r Hh Hl).
    rewrite (lstrip_by_stop _ _ Eh). now apply strip_stop.
Qed.

(** ** Searching for one character *)

Lemma str_in_single (c : ascii) (s : str) :
  str_in Ascii.eqb [c] s = mem_char c s.
Proof.
  induction s as [|d s IH]; [reflexivity|].
  cbn [str_in starts_with]. rewrite IH.
  unfold mem_char. cbn [existsb].
  destruct s; now rewrite andb_true_r.
Qed.

Lemma mem_char_app (c : ascii) (a b : str) :
  mem_char c (a ++ b) = mem_char c a || mem_char c b.
Proof. unfold mem_char. apply existsb_app. Qed.

Lemma mem_char_In (c : ascii) (s : str) :
  mem_char c s = true <-> In c s.
Proof.
  unfold mem_char. rewrite existsb_exists. split.
  - intros [x [Hx E]]. apply Ascii.eqb_eq in E. now subst.
  - intros H. exists c. split; [exact H|apply Ascii.eqb_refl].
Qed.

Lemma break_at_found (c : ascii) (a b : str) :
  mem_char c a = false ->
  break_at Ascii.eqb c (a ++ c :: b) = Some (a, b).
Proof.
  induction a as [|d a IH]; intros H.
  - simpl. now rewrite Ascii.eqb_refl.
  - unfold mem_char in H. cbn [existsb] in H.
    apply orb_false_iff in H as [Hd Ha].
    cbn [app break_at]. rewrite Ascii.eqb_sym, Hd.
    now rewrite (IH Ha).
Qed.

Lemma break_at_none (c : ascii) (a : str) :
  mem_char c a = false -> break_at Ascii.eqb c a = None.
Proof.
  induction a as [|d a IH]; intros H; [reflexivity|].
  unfold mem_char in H. cbn [existsb] in H.
  apply orb_false_iff in H as [Hd Ha].
  cbn [break_at]. rewrite Ascii.eqb_sym, Hd. now rewrite (IH Ha).
Qed.

Lemma break_at_inv (c : ascii) (s a b : str) :
  break_at Ascii.eqb c s = Some (a, b) ->
  s = a ++ c :: b /\ mem_char c a = false.
Proof.
  revert a b. induction s as [|d s IH]; intros a b H; [discriminate|].
  cbn [break_at] in H.
  destruct (Ascii.eqb_spec d c) as [->|Hd].
  - injection H as <- <-. now split.
  - destruct (break_at Ascii.eqb c s) as [[a' b']|]; [|discriminate].
    injection H as <- <-.
    destruct (IH a' b' eq_refl) as [-> Ha]. split; [reflexivity|].
    unfold mem_char. cbn [existsb].
    destruct (Ascii.eqb_spec c d) as [->|_]; [contradiction|exact Ha].
Qed.

(** ** [coerce_to_quoted] *)

(** C7, as stated, fails: the text is split at its first '.', also when
    that '.' is inside double quotes. *)
Lemma coerce_to_quoted_splits_inside_quotes :
  coerce_to_quoted ([dquote] ++ lit "my.schema" ++ [dquote] ++ lit ".t")
  = [dquote] ++ lit "my" ++ [dquote] ++ lit "."
      ++ [dquote] ++ lit "schema" ++ [dquote] ++ lit ".t" ++ [dquote]
  /\ coerce_to_quoted_outside_quotes
       ([dquote] ++ lit "my.schema" ++ [dquote] ++ lit ".t")
     = [dquote] ++ lit "my.schema" ++ [dquote] ++ lit "."
         ++ [dquote] ++ lit "t" ++ [dquote]
  /\ coerce_to_quoted ([dquote] ++ lit "my.schema" ++ [dquote] ++ lit ".t")
     <> coerce_to_quoted_outside_quotes
          ([dquote] ++ lit "my.schema" ++ [dquote] ++ lit ".t").
Proof.
  repeat split; try reflexivity. vm_compute. discriminate.
Qed.

(** C7, amended.  [coerce_to_quoted] splits the text at its first '.',
    wherever it stands: the part before it and the part after it are
    stripped of their quotes and quoted again; a text without '.' is
    stripped and quoted as one part. *)
Theorem coerce_to_quoted_first_dot (a b : str) :
  mem_char "." a = false ->
  coerce_to_quoted (a ++ "."%char :: b)
  = ([dquote] ++ strip_double_quotes a ++ [dquote])
      ++ lit "." ++ ([dquote] ++ strip_double_quotes b ++ [dquote])
  /\ coerce_to_quoted a = [dquote] ++ strip_double_quotes a ++ [dquote].
Proof.
  intros Ha. unfold coerce_to_quoted, partition.
  change (list_ascii_of_string ".") with ["."%char]. split.
  - rewrite str_in_single, mem_char_app, Ha.
    unfold mem_char at 1. cbn [existsb]. rewrite Ascii.eqb_refl.
    cbn [orb]. now rewrite (break_at_found _ _ _ Ha).
  - now rewrite str_in_single, Ha.
Qed.

Lemma coerce_to_quoted_first_dot_witness :
  coerce_to_quoted
    (([dquote] ++ lit "my") ++ "."%char :: (lit "schema" ++ [dquote] ++ lit ".t"))
  = ([dquote] ++ strip_double_quotes ([dquote] ++ lit "my") ++ [dquote])
      ++ lit "."
      ++ ([dquote]
            ++ strip_double_quotes (lit "schema" ++ [dquote] ++ lit ".t")
            ++ [dquote]).
Proof.
  apply (coerce_to_quoted_first_dot ([dquote] ++ lit "my")
           (lit "schema" ++ [dquote] ++ lit ".t")).
  reflexivity.
Defined.

(** ** [parse_storage_parameters] on given inputs *)

(** C1.  On the documented input the code returns the texts "80" and
    "80.5", not the integer 80 and the float 80.5: [part[1]] is the second
    character of the part, here 'p' or 'a', and neither [int] nor [float]
    accepts it. *)
Theorem parse_storage_parameters_documented_input :
  parse_storage_parameters
    (lit "param1, param2=80,param3='test',param4=80.5")
  = Ok [ Flag (lit "param1");
         Pair (lit "param2") (VStr (lit "80"));
         Pair (lit "param3") (VStr (lit "'test'"));
         Pair (lit "param4") (VStr (lit "80.5")) ]
  /\ parse_storage_parameters
       (lit "param1, param2=80,param3='test',param4=80.5")
     <> Ok documented_parameters.
Proof.
  split; [reflexivity|]. vm_compute. discriminate.
Qed.

(** C2.  A part that is a lone '=' makes [part[1]] raise [IndexError],
    which the [except ValueError] clauses do not catch: the function
    raises. *)
Theorem parse_storage_parameters_raises :
  parse_storage_parameters (lit "=") = Raise IndexError
  /\ parse_storage_parameters (lit "fillfactor=70,=") = Raise IndexError.
Proof. split; reflexivity. Qed.

(** C10.  The empty text has one part, the empty text, which is a flag;
    the clause written for that list is " WITH ()". *)
Theorem parse_storage_parameters_empty :
  parse_storage_parameters [] = Ok [Flag []]
  /\ parse_storage_parameters [] <> Ok []
  /\ format_storage_parameters_clause (Some [Flag []]) = lit " WITH ()"
  /\ format_storage_parameters_clause (Some [Flag []]) <> [].
Proof.
  repeat split; try reflexivity; vm_compute; discriminate.
Qed.

(** ** One part of a clause *)

Lemma space_not_decimal (c : ascii) : isspace c = true -> isdecimal c = false.
Proof.
  destruct c as [[] [] [] [] [] [] [] []]; vm_compute; congruence.
Qed.

Lemma strip_split (s : str) :
  exists w w', s = w ++ strip s ++ w'
               /\ forallb isspace w = true /\ forallb isspace w' = true.
Proof.
  destruct (lstrip_by_split isspace s) as [w [Hs Hw]].
  destruct (rstrip_by_split isspace (lstrip_by isspace s)) as [w' [Hs' Hw']].
  exists w, w'. unfold strip, rstrip, lstrip.
  now rewrite <- Hs', <- Hs.
Qed.

Lemma mem_char_strip (c : ascii) (s : str) :
  mem_char c s = false -> mem_char c (strip s) = false.
Proof.
  destruct (strip_split s) as [w [w' [Hs _]]]. intros H.
  rewrite Hs, !mem_char_app in H.
  apply orb_false_iff in H as [_ H].
  now apply orb_false_iff in H as [H _].
Qed.

Lemma break_at_mem (c : ascii) (s : str) :
  break_at Ascii.eqb c s = None -> mem_char c s = false.
Proof.
  induction s as [|d s IH]; [reflexivity|].
  cbn [break_at]. unfold mem_char. cbn [existsb].
  rewrite (Ascii.eqb_sym c d).
  destruct (Ascii.eqb d c); [discriminate|].
  destruct (break_at Ascii.eqb c s) as [[a b]|]; [discriminate|].
  intros _. now apply IH.
Qed.

Lemma parse_part_flag (part : str) :
  mem_char "=" part = false -> parse_part part = Ok (Flag (strip part)).
Proof.
  intros H. unfold parse_part.
  change (list_ascii_of_string "=") with ["="%char].
  now rewrite str_in_single, H.
Qed.

Lemma parse_part_pair (part b a : str) (c1 : ascii) :
  break_at Ascii.eqb "="%char part = Some (b, a) ->
  nth_error part 1 = Some c1 ->
  isdecimal c1 = false ->
  parse_part part = Ok (Pair (strip b) (VStr (strip a))).
Proof.
  intros Hb Hn Hd. unfold parse_part.
  change (list_ascii_of_string "=") with ["="%char].
  destruct (break_at_inv _ _ _ _ Hb) as [Hpart _].
  assert (Hin : mem_char "=" part = true).
  { rewrite Hpart, mem_char_app. unfold mem_char at 2. cbn [existsb].
    rewrite Ascii.eqb_refl. now rewrite orb_true_r. }
  rewrite str_in_single, Hin. unfold split1. rewrite Hb.
  cbn [getitem nth_error bind].
  destruct part as [|c0 [|c1' part]]; try discriminate.
  injection Hn as ->.
  cbn [getitem nth_error bind]. unfold py_int, py_float.
  rewrite Hd. reflexivity.
Qed.

Lemma second_char_ok (w k w' rest : str) :
  forallb isspace w = true -> forallb isspace w' = true ->
  key_ok k = true ->
  exists c1, nth_error (w ++ k ++ w' ++ "="%char :: rest) 1 = Some c1
             /\ isdecimal c1 = false.
Proof.
  intros Hw Hw' Hk. unfold key_ok in Hk.
  destruct k as [|k0 k]; [discriminate|].
  cbn [length Nat.eqb negb andb firstn forallb] in Hk.
  apply andb_true_iff in Hk as [Hk0 Hk].
  apply negb_true_iff in Hk0.
  destruct w as [|x [|y w]].
  - destruct k as [|k1 k].
    + destruct w' as [|z w'].
      * exists "="%char. now split.
      * exists z. split; [reflexivity|].
        cbn [forallb] in Hw'. apply andb_true_iff in Hw' as [Hz _].
        now apply space_not_decimal.
    + exists k1. split; [reflexivity|].
      cbn [firstn forallb] in Hk. apply andb_true_iff in Hk as [Hk1 _].
      now apply negb_true_iff in Hk1.
  - exists k0. now split.
  - exists y. split; [reflexivity|].
    cbn [forallb] in Hw. apply andb_true_iff in Hw as [_ Hw].
    apply andb_true_iff in Hw as [Hy _]. now apply space_not_decimal.
Qed.

(** A part that is [part_ok] yields its plain parameter. *)
Lemma parse_part_ok (part : str) :
  part_ok part = true -> parse_part part = Ok (plain_param part).
Proof.
  unfold part_ok, plain_param.
  destruct (break_at Ascii.eqb "="%char part) as [[b a]|] eqn:E; intros H.
  - destruct (break_at_inv _ _ _ _ E) as [Hpart _].
    destruct (strip_split b) as [w [w' [Hb [Hw Hw']]]].
    destruct (second_char_ok w (strip b) w' a Hw Hw' H) as [c1 [Hn Hd]].
    apply (parse_part_pair part b a c1 E); [|exact Hd].
    rewrite Hpart, Hb, <- !app_assoc. exact Hn.
  - apply parse_part_flag. now apply break_at_mem.
Qed.

Lemma strip_space_cons (s : str) : strip (" "%char :: s) = strip s.
Proof. reflexivity. Qed.

(** The text written for a plain parameter is read back as that
    parameter, at the head of a clause body and behind the blank that
    follows a comma. *)
Lemma plain_param_reparse (part : str) :
  part_ok part = true ->
  parse_part (format_param (plain_param part)) = Ok (plain_param part)
  /\ parse_part (" "%char :: format_param (plain_param part))
     = Ok (plain_param part).
Proof.
  unfold part_ok, plain_param.
  destruct (break_at Ascii.eqb "="%char part) as [[b a]|] eqn:E; intros H.
  - destruct (break_at_inv _ _ _ _ E) as [_ Hb].
    pose proof (mem_char_strip _ _ Hb) as Hk.
    cbn [format_param format_value list_ascii_of_string app].
    split.
    + destruct (second_char_ok [] (strip b) [] (strip a) eq_refl eq_refl H)
        as [c1 [Hn Hd]].
      rewrite (parse_part_pair _ (strip b) (strip a) c1);
        [now rewrite !strip_idempotent| |exact Hn|exact Hd].
      now apply break_at_found.
    + destruct (second_char_ok [" "%char] (strip b) [] (strip a)
                  eq_refl eq_refl H) as [c1 [Hn Hd]].
      rewrite (parse_part_pair _ (" "%char :: strip b) (strip a) c1);
        [now rewrite strip_space_cons, !strip_idempotent| |exact Hn|exact Hd].
      apply (break_at_found "="%char (" "%char :: strip b) (strip a)).
      unfold mem_char. cbn [existsb]. exact Hk.
  - pose proof (mem_char_strip _ _ (break_at_mem _ _ E)) as Hf.
    cbn [format_param]. split.
    + rewrite parse_part_flag by exact Hf. now rewrite strip_idempotent.
    + rewrite parse_part_flag.
      * now rewrite strip_space_cons, strip_idempotent.
      * unfold mem_char. cbn [existsb]. exact Hf.
Qed.

Lemma plain_param_no_comma (part : str) :
  mem_char "," part = false ->
  mem_char "," (format_param (plain_param part)) = false.
Proof.
  unfold plain_param. intros H.
  destruct (break_at Ascii.eqb "="%char part) as [[b a]|] eqn:E.
  - destruct (break_at_inv _ _ _ _ E) as [Hpart _].
    rewrite Hpart, mem_char_app in H.
    apply orb_false_iff in H as [Hb Ha].
    unfold mem_char in Ha. cbn [existsb] in Ha.
    apply orb_false_iff in Ha as [_ Ha].
    cbn [format_param format_value list_ascii_of_string app].
    rewrite mem_char_app, (mem_char_strip _ _ Hb).
    unfold mem_char at 1. cbn [existsb orb].
    change (mem_char "," (strip a) = false). now apply mem_char_strip.
  - cbn [format_param]. now apply mem_char_strip.
Qed.

(** ** Splitting and joining *)

Lemma split_found (sep : ascii) (a b : str) :
  mem_char sep a = false ->
  split Ascii.eqb sep (a ++ sep :: b) = a :: split Ascii.eqb sep b.
Proof.
  induction a as [|d a IH]; intros H.
  - cbn [app split]. now rewrite Ascii.eqb_refl.
  - unfold mem_char in H. cbn [existsb] in H.
    apply orb_false_iff in H as [Hd Ha].
    cbn [app split]. rewrite Ascii.eqb_sym, Hd.
    now rewrite (IH Ha).
Qed.

Lemma split_none (sep : ascii) (a : str) :
  mem_char sep a = false -> split Ascii.eqb sep a = [a].
Proof.
  induction a as [|d a IH]; intros H; [reflexivity|].
  unfold mem_char in H. cbn [existsb] in H.
  apply orb_false_iff in H as [Hd Ha].
  cbn [split]. rewrite Ascii.eqb_sym, Hd. now rewrite (IH Ha).
Qed.

Lemma split_parts (sep : ascii) (s : str) :
  split Ascii.eqb sep s <> []
  /\ Forall (fun p => mem_char sep p = false) (split Ascii.eqb sep s).
Proof.
  induction s as [|d s [IHne IHall]].
  - split; [discriminate|]. now repeat constructor.
  - cbn [split]. destruct (Ascii.eqb_spec d sep) as [->|Hd].
    + split; [discriminate|]. now constructor.
    + destruct (split Ascii.eqb sep s) as [|t ts]; [congruence|].
      split; [discriminate|].
      inversion IHall as [|? ? Ht Hts]; subst.
      constructor; [|exact Hts].
      unfold mem_char. cbn [existsb].
      destruct (Ascii.eqb_spec sep d) as [->|_]; [contradiction|exact Ht].
Qed.

(** The parts of a joined text whose pieces hold no comma: the first
    piece, and every other piece behind a blank. *)
Lemma split_join (r : str) (rs : list str) :
  Forall (fun p => mem_char "," p = false) (r :: rs) ->
  split Ascii.eqb ","%char (join (lit ", ") (r :: rs))
  = r :: map (cons " "%char) rs.
Proof.
  revert r. induction rs as [|q rs IH]; intros r H.
  - inversion H; subst. cbn [join map]. now apply split_none.
  - inversion H as [|? ? Hr Hrest]; subst.
    change (join (lit ", ") (r :: q :: rs))
      with (r ++ ","%char :: " "%char :: join (lit ", ") (q :: rs)).
    rewrite (split_found _ _ _ Hr). f_equal.
    change (split Ascii.eqb ","%char (" "%char :: join (lit ", ") (q :: rs)))
      with (match split Ascii.eqb ","%char (join (lit ", ") (q :: rs)) with
            | t :: ts => (" "%char :: t) :: ts
            | [] => [[" "%char]]
            end).
    rewrite (IH q Hrest). reflexivity.
Qed.

(** ** The loop of [parse_storage_parameters] *)

Lemma parse_parts_ok (parts : list str) (l acc : list StorageParameter) :
  Forall2 (fun p r => parse_part p = Ok r) parts l ->
  parse_parts parts acc = Ok (acc ++ l).
Proof.
  intros H. revert acc.
  induction H as [|p r parts l Hp _ IH]; intros acc.
  - cbn. now rewrite app_nil_r.
  - cbn [parse_parts]. rewrite Hp. cbn [bind].
    rewrite IH, <- app_assoc. reflexivity.
Qed.

(** ** Parsing, writing and parsing again *)

(** C3, as stated, fails: [format_storage_parameters_clause] writes the
    whole clause, with " WITH (" before the parameters and ")" after them,
    and [parse_storage_parameters] reads only what is between the
    parentheses. *)
Lemma parse_format_parse_differs :
  parse_storage_parameters (lit "param1") = Ok [Flag (lit "param1")]
  /\ format_storage_parameters_clause (Some [Flag (lit "param1")])
     = lit " WITH (param1)"
  /\ parse_storage_parameters (lit " WITH (param1)")
     = Ok [Flag (lit "WITH (param1)")]
  /\ parse_storage_parameters
       (format_storage_parameters_clause (Some [Flag (lit "param1")]))
     <> parse_storage_parameters (lit "param1").
Proof.
  repeat split; try reflexivity. vm_compute. discriminate.
Qed.

(** C3, amended.  For a clause body in which every key is not empty and
    has no decimal digit among its first two characters, the clause
    written for the parsed parameters is " WITH (" body ")" for a body
    that parses to the same parameters, in the same order. *)
Theorem parse_format_parse_body (s : str) :
  clause_ok s = true ->
  exists l,
    parse_storage_parameters s = Ok l
    /\ l = map plain_param (split Ascii.eqb ","%char s)
    /\ format_storage_parameters_clause (Some l)
       = lit " WITH (" ++ clause_body l ++ lit ")"
    /\ parse_storage_parameters (clause_body l) = Ok l.
Proof.
  unfold clause_ok, parse_storage_parameters. intros Hok.
  destruct (split_parts ","%char s) as [Hne Hcomma].
  set (parts := split Ascii.eqb ","%char s) in *.
  rewrite forallb_forall in Hok.
  exists (map plain_param parts).
  split; [|split; [reflexivity|split]].
  - apply (parse_parts_ok parts (map plain_param parts) []).
    clear Hne Hcomma. induction parts as [|p ps IH]; cbn [map].
    + constructor.
    + constructor.
      * apply parse_part_ok, Hok. now left.
      * apply IH. intros x Hx. apply Hok. now right.
  - destruct parts as [|p ps]; [congruence|]. reflexivity.
  - destruct parts as [|p ps]; [congruence|].
    unfold clause_body. cbn [map].
    rewrite split_join.
    + apply (parse_parts_ok _ (plain_param p :: map plain_param ps) []).
      constructor.
      * apply plain_param_reparse, Hok. now left.
      * assert (Hps : forall x, In x ps -> part_ok x = true)
          by (intros x Hx; apply Hok; now right).
        clear Hok Hne Hcomma.
        induction ps as [|q qs IH]; cbn [map]; constructor.
        -- apply plain_param_reparse, Hps. now left.
        -- apply IH. intros x Hx. apply Hps. now right.
    + rewrite map_map.
      change (Forall (fun r => mem_char "," r = false)
                (map (fun x => format_param (plain_param x)) (p :: ps))).
      apply Forall_forall. intros r Hr.
      apply in_map_iff in Hr as [x [<- Hx]].
      apply plain_param_no_comma.
      rewrite Forall_forall in Hcomma. now apply Hcomma.
Qed.

Lemma parse_format_parse_body_witness :
  clause_ok (lit "param1, param2=80,param3='test',param4=80.5") = true
  /\ exists l,
       parse_storage_parameters
         (lit "param1, param2=80,param3='test',param4=80.5") = Ok l
       /\ l = map plain_param
                (split Ascii.eqb ","%char
                   (lit "param1, param2=80,param3='test',param4=80.5"))
       /\ format_storage_parameters_clause (Some l)
          = lit " WITH (" ++ clause_body l ++ lit ")"
       /\ parse_storage_parameters (clause_body l) = Ok l.
Proof.
  split; [reflexivity|].
  apply (parse_format_parse_body
           (lit "param1, param2=80,param3='test',param4=80.5")).
  reflexivity.
Defined.


(** * Further properties *)

(** ** [normalize_whitespace] *)

Lemma split_ws_spaces (w s : str) :
  forallb isspace w = true -> split_ws (w ++ s) = split_ws s.
Proof.
  induction w as [|c w IH]; intros H; [reflexivity|].
  cbn [forallb] in H. apply andb_true_iff in H as [Hc Hw].
  cbn [app split_ws]. rewrite Hc. now apply IH.
Qed.

Lemma split_ws_cons_word (c : ascii) (s : str) :
  isspace c = false -> exists t ts, split_ws (c :: s) = (c :: t) :: ts.
Proof.
  intros Hc. cbn [split_ws]. rewrite Hc.
  destruct s as [|d s]; [now exists [], []|].
  destruct (isspace d); [now eexists [], _|].
  destruct (split_ws (d :: s)) as [|t ts]; [now exists [], []|].
  now exists t, ts.
Qed.

(** A non-empty run of whitespace separates the words before it from the
    words after it. *)
Lemma split_ws_app (a w b : str) :
  w <> [] -> forallb isspace w = true ->
  split_ws (a ++ w ++ b) = split_ws a ++ split_ws b.
Proof.
  intros Hne Hw. induction a as [|c a IH].
  - cbn [app]. now apply split_ws_spaces.
  - cbn [app]. cbn [split_ws].
    destruct (isspace c) eqn:Hc; [exact IH|].
    destruct a as [|d a].
    + cbn [app]. destruct w as [|x w]; [congruence|].
      cbn [forallb] in Hw. apply andb_true_iff in Hw as [Hx Hw'].
      cbn [app]. rewrite Hx.
      change (x :: w ++ b) with ((x :: w) ++ b).
      rewrite split_ws_spaces; [reflexivity|].
      cbn [forallb]. now rewrite Hx, Hw'.
    + cbn [app] in *. destruct (isspace d) eqn:Hd.
      * now rewrite IH.
      * rewrite IH.
        destruct (split_ws_cons_word d a Hd) as [t [ts E]].
        rewrite E. reflexivity.
Qed.

Lemma split_ws_words (s : str) : forallb is_word (split_ws s) = true.
Proof.
  induction s as [|c s IH]; [reflexivity|].
  cbn [split_ws]. destruct (isspace c) eqn:Hc; [exact IH|].
  assert (Hw : forall t, is_word t = true -> is_word (c :: t) = true).
  { intros t Ht. unfold is_word in *. cbn [length Nat.eqb negb forallb andb].
    apply andb_true_iff in Ht as [_ Ht]. now rewrite Hc, Ht. }
  assert (H1 : is_word [c] = true).
  { unfold is_word. cbn. now rewrite Hc. }
  destruct s as [|d s]; [cbn [forallb]; now rewrite H1|].
  destruct (isspace d).
  - cbn [forallb]. now rewrite H1, IH.
  - destruct (split_ws (d :: s)) as [|t ts]; [cbn [forallb]; now rewrite H1|].
    cbn [forallb] in *. apply andb_true_iff in IH as [Ht Hts].
    now rewrite (Hw t Ht), Hts.
Qed.

Lemma split_ws_word (t : str) : is_word t = true -> split_ws t = [t].
Proof.
  unfold is_word. intros H. apply andb_true_iff in H as [Hne Hall].
  destruct t as [|c t]; [discriminate|]. clear Hne.
  revert c Hall. induction t as [|d t IH]; intros c Hall.
  - cbn [forallb] in Hall. apply andb_true_iff in Hall as [Hc _].
    apply negb_true_iff in Hc. cbn [split_ws]. now rewrite Hc.
  - cbn [forallb] in Hall. apply andb_true_iff in Hall as [Hc Hall].
    pose proof Hall as Hall'.
    cbn [forallb] in Hall'. apply andb_true_iff in Hall' as [Hd _].
    apply negb_true_iff in Hc, Hd.
    change (split_ws (c :: d :: t))
      with (if isspace c then split_ws (d :: t)
            else if isspace d then [c] :: split_ws (d :: t)
                 else match split_ws (d :: t) with
                      | u :: us => (c :: u) :: us
                      | [] => [[c]]
                      end).
    now rewrite Hc, Hd, (IH d Hall).
Qed.

(** Joining words with a whitespace separator and splitting again gives
    the words back. *)
Lemma split_ws_join (sep : str) (ts : list str) :
  sep <> [] -> forallb isspace sep = true ->
  forallb is_word ts = true ->
  split_ws (join sep ts) = ts.
Proof.
  intros Hne Hsep. induction ts as [|t ts IH]; intros H; [reflexivity|].
  cbn [forallb] in H. apply andb_true_iff in H as [Ht Hts].
  destruct ts as [|u ts].
  - cbn [join]. now apply split_ws_word.
  - change (join sep (t :: u :: ts)) with (t ++ sep ++ join sep (u :: ts)).
    rewrite (split_ws_app _ _ _ Hne Hsep), (split_ws_word t Ht), (IH Hts).
    reflexivity.
Qed.

Lemma is_word_ends (t : str) :
  is_word t = true -> hd_not isspace t = true /\ last_not isspace t = true.
Proof.
  unfold is_word. intros H. apply andb_true_iff in H as [Hne Hall].
  split.
  - destruct t as [|c t]; [discriminate|].
    cbn [forallb] in Hall. now apply andb_true_iff in Hall as [Hc _].
  - unfold last_not.
    assert (Hrev : forallb (fun c => negb (isspace c)) (rev t) = true)
      by now apply forallb_rev_true.
    destruct (rev t) as [|c r] eqn:E.
    + apply (f_equal (@length _)) in E. rewrite length_rev in E.
      destruct t; [discriminate Hne|discriminate E].
    + cbn [forallb] in Hrev. now apply andb_true_iff in Hrev as [Hc _].
Qed.

Lemma hd_not_ok {A : Type} (p : A -> bool) (s : list A) :
  hd_not p s = true -> hd_ok p s = true.
Proof. destruct s; [discriminate|auto]. Qed.

Lemma hd_not_app {A : Type} (p : A -> bool) (s r : list A) :
  hd_not p s = true -> hd_not p (s ++ r) = true.
Proof. destruct s; [discriminate|auto]. Qed.

Lemma last_not_app {A : Type} (p : A -> bool) (s r : list A) :
  last_not p r = true -> last_not p (s ++ r) = true.
Proof.
  unfold last_not. rewrite rev_app_distr. apply hd_not_app.
Qed.

Lemma join_words_ends (sep : str) (t : str) (ts : list str) :
  forallb is_word (t :: ts) = true ->
  hd_not isspace (join sep (t :: ts)) = true
  /\ last_not isspace (join sep (t :: ts)) = true.
Proof.
  revert t. induction ts as [|u ts IH]; intros t H.
  - cbn [forallb] in H. apply andb_true_iff in H as [Ht _].
    now apply is_word_ends.
  - cbn [forallb] in H. apply andb_true_iff in H as [Ht Hts].
    change (join sep (t :: u :: ts)) with (t ++ sep ++ join sep (u :: ts)).
    destruct (IH u Hts) as [_ Hl]. split.
    + apply hd_not_app. now apply is_word_ends.
    + apply last_not_app, last_not_app. exact Hl.
Qed.

(** X1.  The closing [strip()] of [normalize_whitespace] never removes
    anything: the result is the words of the text joined by the separator,
    whatever the separator is. *)
Theorem normalize_whitespace_joined_words (text base_whitespace : str) :
  normalize_whitespace text base_whitespace
  = join base_whitespace (split_ws text).
Proof.
  unfold normalize_whitespace.
  pose proof (split_ws_words text) as Hw.
  destruct (split_ws text) as [|t ts]; [reflexivity|].
  destruct (join_words_ends base_whitespace t ts Hw) as [Hh Hl].
  apply strip_stop; now apply hd_not_ok.
Qed.

(** X2.  With a separator made of whitespace, normalising keeps the words
    of the text and their order, and normalising twice is the same as
    normalising once. *)
Theorem normalize_whitespace_idempotent (text sep : str) :
  sep <> [] -> forallb isspace sep = true ->
  split_ws (normalize_whitespace text sep) = split_ws text
  /\ normalize_whitespace (normalize_whitespace text sep) sep
     = normalize_whitespace text sep.
Proof.
  intros Hne Hsep.
  assert (E : normalize_whitespace text sep = join sep (split_ws text)).
  { unfold normalize_whitespace.
    pose proof (split_ws_words text) as Hw.
    destruct (split_ws text) as [|t ts]; [reflexivity|].
    destruct (join_words_ends sep t ts Hw) as [Hh Hl].
    apply strip_stop; now apply hd_not_ok. }
  assert (W : split_ws (normalize_whitespace text sep) = split_ws text).
  { rewrite E. apply split_ws_join; auto using split_ws_words. }
  split; [exact W|].
  unfold normalize_whitespace at 1. rewrite W.
  reflexivity.
Qed.

Lemma normalize_whitespace_idempotent_witness :
  normalize_whitespace
    (normalize_whitespace (lit "  select   1 ") (lit " ")) (lit " ")
  = normalize_whitespace (lit "  select   1 ") (lit " ").
Proof.
  apply (normalize_whitespace_idempotent (lit "  select   1 ") (lit " "));
    [discriminate|reflexivity].
Defined.

(** X3.  Any non-empty run of whitespace inside a text counts as one
    blank, and whitespace at the ends does not count at all. *)
Theorem normalize_whitespace_runs (a w b w1 w2 sep : str) :
  w <> [] -> forallb isspace w = true ->
  forallb isspace w1 = true -> forallb isspace w2 = true ->
  normalize_whitespace (w1 ++ a ++ w ++ b ++ w2) sep
  = normalize_whitespace (a ++ lit " " ++ b) sep.
Proof.
  intros Hne Hw H1 H2. unfold normalize_whitespace.
  rewrite (split_ws_spaces w1 _ H1).
  rewrite (split_ws_app a w (b ++ w2) Hne Hw).
  rewrite (split_ws_app a (lit " ") b); [|discriminate|reflexivity].
  destruct w2 as [|x w2].
  - now rewrite app_nil_r.
  - rewrite <- (app_nil_r ((x :: w2))) at 1.
    rewrite (split_ws_app b (x :: w2) []); [|discriminate|exact H2].
    cbn [split_ws]. now rewrite app_nil_r.
Qed.

Lemma normalize_whitespace_runs_witness :
  normalize_whitespace
    (lit "  " ++ lit "select" ++ lit "   " ++ lit "1" ++ lit " ") (lit " ")
  = normalize_whitespace (lit "select" ++ lit " " ++ lit "1") (lit " ").
Proof.
  apply (normalize_whitespace_runs (lit "select") (lit "   ") (lit "1")
           (lit "  ") (lit " ") (lit " "));
    [discriminate|reflexivity|reflexivity|reflexivity].
Defined.

Lemma split_ws_nil (s : str) : split_ws s = [] -> forallb isspace s = true.
Proof.
  induction s as [|c s IH]; [reflexivity|].
  destruct (isspace c) eqn:Hc.
  - cbn [split_ws forallb]. rewrite Hc. exact IH.
  - destruct (split_ws_cons_word c s Hc) as [t [ts E]].
    rewrite E. discriminate.
Qed.

(** X4.  The result of [normalize_whitespace] is the empty text exactly
    for a text made of whitespace only, the empty text included. *)
Theorem normalize_whitespace_empty (text sep : str) :
  normalize_whitespace text sep = [] <-> forallb isspace text = true.
Proof.
  unfold normalize_whitespace. split.
  - intros E. apply split_ws_nil.
    pose proof (split_ws_words text) as Hw.
    destruct (split_ws text) as [|t ts]; [reflexivity|].
    destruct (join_words_ends sep t ts Hw) as [Hh Hl].
    rewrite strip_stop in E by now apply hd_not_ok.
    rewrite E in Hh. discriminate.
  - intros H. rewrite <- (app_nil_r text).
    now rewrite (split_ws_spaces text [] H).
Qed.

(** ** [strip_terminating_semicolon] *)

Lemma space_not_semicolon (c : ascii) :
  isspace c = true -> is_semicolon c = false.
Proof.
  destruct c as [[] [] [] [] [] [] [] []]; vm_compute; congruence.
Qed.

Lemma semicolon_not_space (c : ascii) :
  is_semicolon c = true -> isspace c = false.
Proof.
  destruct c as [[] [] [] [] [] [] [] []]; vm_compute; congruence.
Qed.

Lemma strip_terminating_semicolon_unfold (sql : str) :
  strip_terminating_semicolon sql
  = strip (rstrip_by is_semicolon (strip sql)).
Proof. reflexivity. Qed.

Lemma semicolon_junk_gone (w2 q w3 : str) :
  forallb isspace w2 = true -> forallb is_semicolon q = true ->
  forallb isspace w3 = true ->
  rstrip (rstrip_by is_semicolon (rstrip (w2 ++ q ++ w3))) = [].
Proof.
  intros H2 Hq H3. unfold rstrip, rstrip_by.
  rewrite !rev_involutive, !rev_app_distr, <- app_assoc.
  apply forallb_rev_true in H2, Hq, H3.
  rewrite (lstrip_by_absorb _ _ _ H3).
  destruct (rev q) as [|d q'].
  - cbn [app]. rewrite (lstrip_by_all _ _ H2). reflexivity.
  - cbn [forallb] in Hq. apply andb_true_iff in Hq as [Hd Hq].
    assert (Hs : hd_ok isspace ((d :: q') ++ rev w2) = true).
    { simpl. now rewrite (semicolon_not_space d Hd). }
    rewrite (lstrip_by_stop _ _ Hs).
    rewrite lstrip_by_absorb by (simpl; now rewrite Hd).
    rewrite (lstrip_by_stop is_semicolon).
    + rewrite (lstrip_by_all _ _ H2). reflexivity.
    + destruct (rev w2) as [|x r]; [reflexivity|].
      cbn [forallb] in H2. apply andb_true_iff in H2 as [Hx _].
      simpl. now rewrite (space_not_semicolon x Hx).
Qed.

Lemma repeat_semicolon (n : nat) :
  forallb is_semicolon (repeat ";"%char n) = true.
Proof. induction n; simpl; [reflexivity|exact IHn]. Qed.

(** X5.  [strip_terminating_semicolon] removes the whole run of semicolons
    that ends the statement, with the whitespace around it, and the
    whitespace before the statement; the statement itself is kept. *)
Theorem strip_terminating_semicolon_runs (w1 c w2 w3 : str) (n : nat) :
  forallb isspace w1 = true -> forallb isspace w2 = true ->
  forallb isspace w3 = true ->
  statement_text c = true ->
  strip_terminating_semicolon
    (w1 ++ c ++ w2 ++ repeat ";"%char n ++ w3)
  = c.
Proof.
  intros H1 H2 H3 Hc. unfold statement_text in Hc.
  apply andb_true_iff in Hc as [Hc Hsemi].
  apply andb_true_iff in Hc as [Hh Hl].
  rewrite strip_terminating_semicolon_unfold.
  rewrite (strip_anchor _ _ _ Hh Hl).
  rewrite (rstrip_by_anchor _ _ _ _ Hsemi).
  rewrite (strip_anchor _ _ _ Hh Hl).
  rewrite semicolon_junk_gone by auto using repeat_semicolon.
  unfold lstrip. rewrite (lstrip_by_all _ _ H1).
  cbn [lstrip_by app]. now rewrite app_nil_r.
Qed.

Lemma strip_terminating_semicolon_runs_witness :
  strip_terminating_semicolon
    (lit "  " ++ lit "select 1; select 2" ++ lit " "
       ++ repeat ";"%char 2 ++ lit "  ")
  = lit "select 1; select 2".
Proof.
  apply (strip_terminating_semicolon_runs (lit "  ")
           (lit "select 1; select 2") (lit " ") (lit "  ") 2);
    reflexivity.
Defined.

Lemma forallb_weaken {A : Type} (p q : A -> bool) (l : list A) :
  (forall x, p x = true -> q x = true) ->
  forallb p l = true -> forallb q l = true.
Proof.
  intros Hpq. rewrite !forallb_forall. auto.
Qed.

(** X6.  [strip_terminating_semicolon] only cuts at the ends: the result
    stands in the statement between whitespace before it and whitespace
    and semicolons after it. *)
Theorem strip_terminating_semicolon_subtext (sql : str) :
  exists pre post,
    sql = pre ++ strip_terminating_semicolon sql ++ post
    /\ forallb isspace pre = true
    /\ forallb (fun c => isspace c || is_semicolon c) post = true.
Proof.
  rewrite strip_terminating_semicolon_unfold.
  destruct (strip_split sql) as [w1 [w1' [E1 [Hw1 Hw1']]]].
  destruct (rstrip_by_split is_semicolon (strip sql)) as [u [E2 Hu]].
  destruct (strip_split (rstrip_by is_semicolon (strip sql)))
    as [w2 [w2' [E3 [Hw2 Hw2']]]].
  exists (w1 ++ w2), (w2' ++ u ++ w1'). split; [|split].
  - rewrite E1 at 1. rewrite E2 at 1. rewrite E3 at 1.
    now rewrite <- !app_assoc.
  - rewrite forallb_app. now rewrite Hw1, Hw2.
  - assert (Hs : forall l, forallb isspace l = true ->
                 forallb (fun c => isspace c || is_semicolon c) l = true).
    { intros l. apply forallb_weaken. intros x ->. reflexivity. }
    assert (Hq : forall l, forallb is_semicolon l = true ->
                 forallb (fun c => isspace c || is_semicolon c) l = true).
    { intros l. apply forallb_weaken. intros x ->. apply orb_true_r. }
    rewrite !forallb_app, (Hs w2'), (Hq u), (Hs w1'); auto.
Qed.

(** ** More on [strip_double_quotes] *)

(** X7.  [strip_double_quotes] only cuts at the ends, and only whitespace
    and double quotes: the result stands in the text between two runs of
    such characters. *)
Theorem strip_double_quotes_subtext (sql : str) :
  exists pre post,
    sql = pre ++ strip_double_quotes sql ++ post
    /\ forallb (fun c => isspace c || is_dquote c) pre = true
    /\ forallb (fun c => isspace c || is_dquote c) post = true.
Proof.
  rewrite strip_double_quotes_unfold.
  destruct (strip_split sql) as [w1 [w1' [E1 [Hw1 Hw1']]]].
  destruct (rstrip_by_split is_dquote (strip sql)) as [u [E2 Hu]].
  set (s2 := rstrip_by is_dquote (strip sql)) in *.
  destruct (strip_split s2) as [w2 [w2' [E3 [Hw2 Hw2']]]].
  destruct (lstrip_by_split is_dquote (strip s2)) as [v [E4 Hv]].
  set (s4 := lstrip_by is_dquote (strip s2)) in *.
  destruct (strip_split s4) as [w3 [w3' [E5 [Hw3 Hw3']]]].
  exists (w1 ++ w2 ++ v ++ w3), (w3' ++ w2' ++ u ++ w1').
  assert (Hs : forall l, forallb isspace l = true ->
               forallb (fun c => isspace c || is_dquote c) l = true).
  { intros l. apply forallb_weaken. intros x ->. reflexivity. }
  assert (Hq : forall l, forallb is_dquote l = true ->
               forallb (fun c => isspace c || is_dquote c) l = true).
  { intros l. apply forallb_weaken. intros x ->. apply orb_true_r. }
  split; [|split].
  - rewrite E1 at 1. rewrite E2 at 1. rewrite E3 at 1. rewrite E4 at 1.
    rewrite E5 at 1. now rewrite <- !app_assoc.
  - rewrite !forallb_app, (Hs w1), (Hs w2), (Hq v), (Hs w3); auto.
  - rewrite !forallb_app, (Hs w3'), (Hs w2'), (Hq u), (Hs w1'); auto.
Qed.

Lemma strip_double_quotes_shorter (r : str) :
  hd_ok isspace r = true -> last_ok isspace r = true ->
  quote_free_ends r = false ->
  length (strip_double_quotes r) < length r.
Proof.
  intros Hh Hl Hq. rewrite strip_double_quotes_unfold, (strip_stop r Hh Hl).
  unfold quote_free_ends in Hq.
  destruct (last_ok is_dquote r) eqn:El.
  - rewrite (rstrip_by_stop _ _ El), (strip_stop r Hh Hl).
    rewrite andb_true_r in Hq.
    pose proof (lstrip_by_shorter _ _ Hq).
    pose proof (strip_length (lstrip_by is_dquote r)). lia.
  - pose proof (rstrip_by_shorter _ _ El).
    pose proof (strip_length (rstrip_by is_dquote r)).
    pose proof (lstrip_by_length is_dquote (strip (rstrip_by is_dquote r))).
    pose proof (strip_length
                  (lstrip_by is_dquote (strip (rstrip_by is_dquote r)))).
    lia.
Qed.

(** X8.  The texts [strip_double_quotes] leaves as they are are exactly
    those with neither whitespace nor a double quote at either end. *)
Theorem strip_double_quotes_fixed (s : str) :
  strip_double_quotes s = s <-> clean_ends s = true.
Proof.
  unfold clean_ends. split.
  - intros E.
    assert (Hends : hd_ok isspace s = true /\ last_ok isspace s = true).
    { rewrite <- E, strip_double_quotes_unfold. apply strip_ends. }
    destruct Hends as [Hh Hl]. rewrite Hh, Hl. cbn [andb].
    destruct (quote_free_ends s) eqn:Hq; [exact Hq|].
    pose proof (strip_double_quotes_shorter s Hh Hl Hq) as Hlen.
    rewrite E in Hlen. lia.
  - intros H. apply andb_true_iff in H as [H Hlq].
    apply andb_true_iff in H as [H Hhq].
    apply andb_true_iff in H as [Hh Hl].
    rewrite strip_double_quotes_unfold, (strip_stop s Hh Hl).
    rewrite (rstrip_by_stop _ _ Hlq), (strip_stop s Hh Hl).
    rewrite (lstrip_by_stop _ _ Hhq). now apply strip_stop.
Qed.

(** ** [coerce_to_unquoted] *)

Lemma join_nil_cons (c : ascii) (t : str) (ts : list str) :
  join [] ((c :: t) :: ts) = c :: join [] (t :: ts).
Proof. destruct ts; reflexivity. Qed.

Lemma split_join_filter (sep : ascii) (s : str) :
  join [] (split Ascii.eqb sep s)
  = filter (fun c => negb (Ascii.eqb c sep)) s.
Proof.
  induction s as [|c s IH]; [reflexivity|].
  cbn [split filter].
  destruct (split_parts sep s) as [Hne _].
  rewrite <- IH.
  destruct (split Ascii.eqb sep s) as [|t ts]; [congruence|].
  destruct (Ascii.eqb c sep); cbn [negb].
  - reflexivity.
  - apply join_nil_cons.
Qed.

Lemma filter_id {A : Type} (p : A -> bool) (l : list A) :
  forallb p l = true -> filter p l = l.
Proof.
  induction l as [|x l IH]; [reflexivity|].
  cbn [forallb filter]. intros H. apply andb_true_iff in H as [Hx Hl].
  now rewrite Hx, (IH Hl).
Qed.

Lemma filter_forallb {A : Type} (p : A -> bool) (l : list A) :
  forallb p (filter p l) = true.
Proof.
  apply forallb_forall. intros x Hx. now apply filter_In in Hx.
Qed.

Lemma mem_char_forallb (c : ascii) (s : str) :
  mem_char c s = false <->
  forallb (fun d => negb (Ascii.eqb d c)) s = true.
Proof.
  induction s as [|d s IH]; [now split|].
  unfold mem_char in *. cbn [existsb forallb].
  rewrite (Ascii.eqb_sym c d).
  rewrite orb_false_iff, andb_true_iff, negb_true_iff, IH. reflexivity.
Qed.

(** X9.  [coerce_to_unquoted] is the text without its double quotes, every
    other character kept in place; its result holds no double quote, and a
    second application changes nothing. *)
Theorem coerce_to_unquoted_filter (text : str) :
  coerce_to_unquoted text
  = filter (fun c => negb (Ascii.eqb c dquote)) text
  /\ mem_char dquote (coerce_to_unquoted text) = false
  /\ coerce_to_unquoted (coerce_to_unquoted text) = coerce_to_unquoted text.
Proof.
  unfold coerce_to_unquoted. rewrite !split_join_filter.
  split; [reflexivity|split].
  - apply mem_char_forallb, filter_forallb.
  - apply filter_id, filter_forallb.
Qed.

(** ** [coerce_to_quoted] and [coerce_to_unquoted] *)

Lemma coerce_to_quoted_at_dot (a b : str) :
  mem_char "." a = false ->
  coerce_to_quoted (a ++ "."%char :: b)
  = ([dquote] ++ strip_double_quotes a ++ [dquote])
      ++ "."%char :: ([dquote] ++ strip_double_quotes b ++ [dquote]).
Proof.
  intros Ha. unfold coerce_to_quoted, partition.
  change (list_ascii_of_string ".") with ["."%char].
  rewrite str_in_single, mem_char_app, Ha.
  unfold mem_char at 1. cbn [existsb]. rewrite Ascii.eqb_refl.
  cbn [orb]. now rewrite (break_at_found _ _ _ Ha).
Qed.

Lemma coerce_to_quoted_no_dot (a : str) :
  mem_char "." a = false ->
  coerce_to_quoted a = [dquote] ++ strip_double_quotes a ++ [dquote].
Proof.
  intros Ha. unfold coerce_to_quoted.
  change (list_ascii_of_string ".") with ["."%char].
  now rewrite str_in_single, Ha.
Qed.

Lemma mem_char_rev (c : ascii) (s : str) :
  mem_char c (rev s) = mem_char c s.
Proof.
  destruct (mem_char c s) eqn:E.
  - apply mem_char_In. apply mem_char_In in E. now apply in_rev in E.
  - destruct (mem_char c (rev s)) eqn:E'; [|reflexivity].
    apply mem_char_In in E'. apply in_rev in E'.
    apply mem_char_In in E'. congruence.
Qed.

Lemma no_dquote_ends (s : str) :
  mem_char dquote s = false ->
  hd_ok is_dquote s = true /\ last_ok is_dquote s = true.
Proof.
  assert (H : forall x, mem_char dquote x = false -> hd_ok is_dquote x = true).
  { intros [|c x] Hx; [reflexivity|].
    unfold mem_char in Hx. cbn [existsb] in Hx.
    apply orb_false_iff in Hx as [Hc _].
    unfold hd_ok, is_dquote, mem_char. cbn [existsb].
    now rewrite Ascii.eqb_sym, Hc. }
  intros Hs. split; [now apply H|].
  unfold last_ok. apply H. now rewrite mem_char_rev.
Qed.

(** Without double quotes, stripping them is plain trimming. *)
Lemma strip_double_quotes_no_dquote (s : str) :
  mem_char dquote s = false -> strip_double_quotes s = strip s.
Proof.
  intros Hs. rewrite strip_double_quotes_unfold.
  pose proof (mem_char_strip _ _ Hs) as Hs'.
  destruct (no_dquote_ends _ Hs') as [Hh Hl].
  rewrite (rstrip_by_stop _ _ Hl), strip_idempotent.
  rewrite (lstrip_by_stop _ _ Hh). apply strip_idempotent.
Qed.

Lemma unquote_quoted (s : str) :
  mem_char dquote s = false ->
  filter (fun c => negb (Ascii.eqb c dquote))
         ([dquote] ++ strip_double_quotes s ++ [dquote])
  = strip s.
Proof.
  intros Hs. rewrite (strip_double_quotes_no_dquote s Hs).
  rewrite !filter_app. cbn [filter]. rewrite Ascii.eqb_refl. cbn [negb app].
  rewrite app_nil_r. apply filter_id.
  apply mem_char_forallb. now apply mem_char_strip.
Qed.

(** X10.  Quoting a reference that holds no double quote and unquoting the
    result gives the reference back with its parts trimmed: the part
    before the first '.' and the part after it, or the whole text when
    there is no '.'. *)
Theorem coerce_to_unquoted_quoted (a b : str) :
  mem_char "." a = false ->
  mem_char dquote a = false -> mem_char dquote b = false ->
  coerce_to_unquoted (coerce_to_quoted (a ++ "."%char :: b))
  = strip a ++ "."%char :: strip b
  /\ coerce_to_unquoted (coerce_to_quoted a) = strip a.
Proof.
  intros Hdot Ha Hb. unfold coerce_to_unquoted.
  rewrite !split_join_filter.
  rewrite (coerce_to_quoted_at_dot a b Hdot), (coerce_to_quoted_no_dot a Hdot).
  split.
  - rewrite (filter_app _ ([dquote] ++ strip_double_quotes a ++ [dquote])).
    rewrite (unquote_quoted a Ha).
    change (filter ?p ("."%char :: ?l)) with ("."%char :: filter p l).
    now rewrite (unquote_quoted b Hb).
  - now apply unquote_quoted.
Qed.

Lemma coerce_to_unquoted_quoted_witness :
  coerce_to_unquoted (coerce_to_quoted (lit "public" ++ "."%char :: lit "my table"))
  = strip (lit "public") ++ "."%char :: strip (lit "my table").
Proof.
  apply (coerce_to_unquoted_quoted (lit "public") (lit "my table"));
    reflexivity.
Defined.

Lemma last_ok_cons {A : Type} (p : A -> bool) (x : A) (s : list A) :
  s <> [] -> last_ok p (x :: s) = last_ok p s.
Proof.
  intros Hs. unfold last_ok. cbn [rev].
  destruct (rev s) as [|c r] eqn:E; [|reflexivity].
  apply (f_equal (@length _)) in E. rewrite length_rev in E.
  destruct s; [congruence|discriminate].
Qed.

(** A text with clean ends between two double quotes is stripped back to
    that text. *)
Lemma strip_double_quotes_wrapped (t : str) :
  clean_ends t = true ->
  strip_double_quotes ([dquote] ++ t ++ [dquote]) = t.
Proof.
  unfold clean_ends. intros H. apply andb_true_iff in H as [H Hlq].
  apply andb_true_iff in H as [H Hhq].
  apply andb_true_iff in H as [Hh Hl].
  rewrite strip_double_quotes_unfold.
  assert (E : strip ([dquote] ++ t ++ [dquote]) = [dquote] ++ t ++ [dquote]).
  { apply strip_stop; [reflexivity|].
    unfold last_ok. cbn [app rev]. rewrite rev_app_distr. reflexivity. }
  rewrite E.
  change ([dquote] ++ t ++ [dquote]) with ((dquote :: t) ++ [dquote]).
  rewrite rstrip_by_absorb by reflexivity.
  destruct t as [|c t].
  - reflexivity.
  - assert (Hne : c :: t <> []) by discriminate.
    rewrite rstrip_by_stop by (now rewrite last_ok_cons).
    rewrite (strip_stop (dquote :: c :: t));
      [|reflexivity|now rewrite last_ok_cons].
    change (dquote :: c :: t) with ([dquote] ++ c :: t).
    rewrite lstrip_by_absorb by reflexivity.
    rewrite (lstrip_by_stop _ _ Hhq). now apply strip_stop.
Qed.

Lemma strip_double_quotes_mem (c : ascii) (s : str) :
  mem_char c s = false -> mem_char c (strip_double_quotes s) = false.
Proof.
  intros H. rewrite strip_double_quotes_unfold.
  apply mem_char_strip.
  destruct (lstrip_by_split is_dquote
              (strip (rstrip_by is_dquote (strip s)))) as [v [E _]].
  assert (H1 : mem_char c (strip (rstrip_by is_dquote (strip s))) = false).
  { apply mem_char_strip.
    destruct (rstrip_by_split is_dquote (strip s)) as [u [E' _]].
    pose proof (mem_char_strip _ _ H) as H0.
    rewrite E', mem_char_app in H0.
    now apply orb_false_iff in H0 as [H0 _]. }
  rewrite E, mem_char_app in H1.
  now apply orb_false_iff in H1 as [_ H1].
Qed.

Lemma strip_double_quotes_clean (s : str) :
  quote_free_ends (strip_double_quotes s) = true ->
  clean_ends (strip_double_quotes s) = true.
Proof.
  intros H. unfold clean_ends, quote_free_ends in *.
  assert (Hends : hd_ok isspace (strip_double_quotes s) = true
                  /\ last_ok isspace (strip_double_quotes s) = true).
  { rewrite strip_double_quotes_unfold. apply strip_ends. }
  destruct Hends as [-> ->]. apply andb_true_iff in H as [-> ->].
  reflexivity.
Qed.

(** X11.  On a reference whose stripped parts have no double quote at
    either end, among them every reference without double quotes and every
    reference [coerce_to_quoted] has written for such a text, quoting twice
    is the same as quoting once. *)
Theorem coerce_to_quoted_idempotent (text : str) :
  parts_quote_free text = true ->
  coerce_to_quoted (coerce_to_quoted text) = coerce_to_quoted text.
Proof.
  unfold parts_quote_free.
  destruct (break_at Ascii.eqb "."%char text) as [[a b]|] eqn:E; intros H.
  - destruct (break_at_inv _ _ _ _ E) as [-> Ha].
    apply andb_true_iff in H as [Hqa Hqb].
    rewrite (coerce_to_quoted_at_dot a b Ha).
    rewrite coerce_to_quoted_at_dot.
    + now rewrite !strip_double_quotes_wrapped
        by now apply strip_double_quotes_clean.
    + rewrite !mem_char_app, (strip_double_quotes_mem _ _ Ha). reflexivity.
  - pose proof (break_at_mem _ _ E) as Hdot.
    rewrite (coerce_to_quoted_no_dot text Hdot).
    rewrite coerce_to_quoted_no_dot.
    + now rewrite strip_double_quotes_wrapped
        by now apply strip_double_quotes_clean.
    + rewrite !mem_char_app, (strip_double_quotes_mem _ _ Hdot). reflexivity.
Qed.

Lemma coerce_to_quoted_idempotent_witness :
  coerce_to_quoted
    (coerce_to_quoted ([dquote] ++ lit "public" ++ [dquote] ++ lit ".table"))
  = coerce_to_quoted ([dquote] ++ lit "public" ++ [dquote] ++ lit ".table").
Proof.
  apply (coerce_to_quoted_idempotent
           ([dquote] ++ lit "public" ++ [dquote] ++ lit ".table")).
  reflexivity.
Defined.

(** ** More on the storage-parameter clause *)

Lemma break_at_some (c : ascii) (s : str) :
  mem_char c s = true -> exists a b, break_at Ascii.eqb c s = Some (a, b).
Proof.
  intros H. destruct (break_at Ascii.eqb c s) as [[a b]|] eqn:E.
  - now exists a, b.
  - apply break_at_mem in E. congruence.
Qed.

(** What one part yields: the only failure is [IndexError], on the part
    that is a lone '='. *)
Lemma parse_part_cases (part : str) :
  (part = ["="%char] /\ parse_part part = Raise IndexError)
  \/ (exists p, parse_part part = Ok p /\ param_shape p = true).
Proof.
  unfold parse_part.
  change (list_ascii_of_string "=") with ["="%char].
  rewrite str_in_single.
  destruct (mem_char "=" part) eqn:Hm; [|right; now eexists].
  destruct (break_at_some _ _ Hm) as [a [b E]].
  unfold split1. rewrite E. cbn [getitem nth_error bind].
  destruct part as [|c0 [|c1 part]].
  - discriminate.
  - left. unfold mem_char in Hm. cbn [existsb] in Hm.
    rewrite orb_false_r in Hm. apply Ascii.eqb_eq in Hm. subst c0.
    split; reflexivity.
  - right. cbn [getitem nth_error bind]. unfold py_int, py_float.
    destruct (isdecimal c1) eqn:Hd; cbn [bind try_except_ValueError].
    + eexists. split; [reflexivity|].
      cbn [param_shape length Nat.eqb andb].
      unfold isdecimal in Hd. apply andb_true_iff in Hd as [H1 H2].
      apply Nat.leb_le in H1, H2.
      apply andb_true_iff. split; apply Z.leb_le; lia.
    + now eexists.
Qed.

Lemma parse_parts_inv (parts : list str) (acc l : list StorageParameter) :
  parse_parts parts acc = Ok l ->
  exists l', l = acc ++ l'
             /\ Forall2 (fun p r => parse_part p = Ok r) parts l'.
Proof.
  revert acc. induction parts as [|p parts IH]; intros acc H.
  - cbn in H. injection H as <-. exists []. split; [now rewrite app_nil_r|].
    constructor.
  - cbn [parse_parts] in H.
    destruct (parse_part p) as [r|e] eqn:Ep; [|discriminate].
    cbn [bind] in H. destruct (IH _ H) as [l' [-> HF]].
    exists (r :: l'). split; [now rewrite <- app_assoc|].
    now constructor.
Qed.

Lemma parse_parts_raise (parts : list str) (acc : list StorageParameter)
  (e : exn) :
  parse_parts parts acc = Raise e <->
  exists p, In p parts /\ parse_part p = Raise e.
Proof.
  revert acc. induction parts as [|p parts IH]; intros acc.
  - cbn. split; [discriminate|]. now intros [p [[] _]].
  - cbn [parse_parts]. destruct (parse_part p) as [r|e'] eqn:Ep; cbn [bind].
    + rewrite IH. split.
      * intros [q [Hq Eq]]. exists q. split; [now right|exact Eq].
      * intros [q [[<-|Hq] Eq]]; [congruence|]. now exists q.
    + split.
      * intros H. injection H as ->. exists p. split; [now left|exact Ep].
      * intros [q [[<-|Hq] Eq]]; [congruence|].
        destruct (parse_part_cases p) as [[_ Hp]|[r [Hp _]]]; [|congruence].
        destruct (parse_part_cases q) as [[_ Hq']|[r [Hq' _]]]; congruence.
Qed.

(** X12.  [parse_storage_parameters] fails exactly when one of the parts
    between the commas is a lone '=', and then with [IndexError]; it never
    raises [ValueError]. *)
Theorem parse_storage_parameters_failure (s : str) :
  (parse_storage_parameters s = Raise IndexError
   <-> In ["="%char] (split Ascii.eqb ","%char s))
  /\ parse_storage_parameters s <> Raise ValueError.
Proof.
  unfold parse_storage_parameters. split.
  - rewrite parse_parts_raise. split.
    + intros [p [Hp Ep]].
      destruct (parse_part_cases p) as [[-> _]|[r [Hr _]]];
        [exact Hp|congruence].
    + intros H. exists ["="%char]. split; [exact H|reflexivity].
  - intros H. apply parse_parts_raise in H as [p [_ Ep]].
    destruct (parse_part_cases p) as [[_ Hp]|[r [Hr _]]]; congruence.
Qed.

Lemma split_length (sep : ascii) (s : str) :
  length (split Ascii.eqb sep s) = S (count_occ ascii_dec s sep).
Proof.
  induction s as [|c s IH]; [reflexivity|].
  cbn [split count_occ].
  destruct (Ascii.eqb_spec c sep) as [->|Hc].
  - destruct (ascii_dec sep sep); [|congruence]. cbn [length]. now rewrite IH.
  - destruct (ascii_dec c sep); [congruence|].
    destruct (split Ascii.eqb sep s) as [|t ts]; [discriminate IH|].
    exact IH.
Qed.

(** X13.  When [parse_storage_parameters] returns, it returns one
    parameter for each part: one more than the text has commas, so never
    the empty list. *)
Theorem parse_storage_parameters_length (s : str) (l : list StorageParameter) :
  parse_storage_parameters s = Ok l ->
  length l = S (count_occ ascii_dec s ","%char).
Proof.
  unfold parse_storage_parameters. intros H.
  destruct (parse_parts_inv _ _ _ H) as [l' [-> HF]].
  cbn [app]. rewrite <- (Forall2_length HF). apply split_length.
Qed.

Lemma parse_storage_parameters_length_witness :
  length [Flag (lit "a"); Pair (lit "b") (VStr (lit "x")); Flag []]
  = S (count_occ ascii_dec (lit "a,b=x,") ","%char).
Proof.
  apply (parse_storage_parameters_length (lit "a,b=x,")). reflexivity.
Defined.

(** X14.  Whatever the text, a value [parse_storage_parameters] returns is
    never a float, and an integer value is a single digit that comes with
    a key of one character; every other pair keeps its value as text. *)
Theorem parse_storage_parameters_shapes (s : str) (l : list StorageParameter) :
  parse_storage_parameters s = Ok l -> forallb param_shape l = true.
Proof.
  unfold parse_storage_parameters. intros H.
  destruct (parse_parts_inv _ _ _ H) as [l' [-> HF]]. cbn [app]. clear H.
  remember (split Ascii.eqb ","%char s) as parts eqn:Hparts. clear Hparts.
  induction HF as [|p r parts l' Hp _ IH]; [reflexivity|].
  cbn [forallb]. rewrite IH, andb_true_r.
  destruct (parse_part_cases p) as [[_ E]|[r' [E Hs]]]; [congruence|].
  rewrite Hp in E. injection E as <-. exact Hs.
Qed.

Lemma parse_storage_parameters_shapes_witness :
  forallb param_shape
    [Pair (lit "fillfactor") (VStr (lit "70")); Pair (lit "a") (VInt 1)]
  = true.
Proof.
  apply (parse_storage_parameters_shapes (lit "fillfactor=70,a1=x")).
  reflexivity.
Defined.

Lemma split_part_mem (sep c : ascii) (s p : str) :
  In p (split Ascii.eqb sep s) -> mem_char c s = false ->
  mem_char c p = false.
Proof.
  revert p. induction s as [|d s IH]; intros p Hp Hs.
  - destruct Hp as [<-|[]]. reflexivity.
  - unfold mem_char in Hs. cbn [existsb] in Hs.
    apply orb_false_iff in Hs as [Hd Hs].
    cbn [split] in Hp. destruct (Ascii.eqb d sep).
    + destruct Hp as [<-|Hp]; [reflexivity|now apply IH].
    + destruct (split Ascii.eqb sep s) as [|t ts] eqn:E.
      * destruct Hp as [<-|[]]. unfold mem_char. cbn [existsb].
        now rewrite Hd.
      * destruct Hp as [<-|Hp].
        -- unfold mem_char. cbn [existsb]. rewrite Hd. cbn [orb].
           apply IH; [now left|exact Hs].
        -- apply IH; [now right|exact Hs].
Qed.

(** X15.  A clause without '=' is read as flags: the parts between the
    commas, each trimmed, in their order. *)
Theorem parse_storage_parameters_flags (s : str) :
  mem_char "=" s = false ->
  parse_storage_parameters s
  = Ok (map (fun part => Flag (strip part)) (split Ascii.eqb ","%char s)).
Proof.
  intros Hs. unfold parse_storage_parameters.
  apply (parse_parts_ok _ _ []).
  assert (H : forall p, In p (split Ascii.eqb ","%char s) ->
                        mem_char "=" p = false).
  { intros p Hp. now apply (split_part_mem ","%char "="%char s p). }
  induction (split Ascii.eqb ","%char s) as [|p ps IH]; cbn [map].
  - constructor.
  - constructor.
    + apply parse_part_flag, H. now left.
    + apply IH. intros q Hq. apply H. now right.
Qed.

Lemma parse_storage_parameters_flags_witness :
  parse_storage_parameters (lit "timescaledb.continuous , compress")
  = Ok (map (fun part => Flag (strip part))
            (split Ascii.eqb ","%char (lit "timescaledb.continuous , compress"))).
Proof.
  apply (parse_storage_parameters_flags
           (lit "timescaledb.continuous , compress")).
  reflexivity.
Defined.

(** ** More on the escapers *)

Lemma str_ind2 (P : str -> Prop) :
  P [] -> (forall c, P [c]) ->
  (forall c d s, P s -> P (d :: s) -> P (c :: d :: s)) ->
  forall s, P s.
Proof.
  intros H0 H1 H2 s.
  assert (H : P s /\ forall c, P (c :: s)); [|exact (proj1 H)].
  induction s as [|d s [IHs IHc]]; [now split|].
  split; [apply IHc|]. intros c. apply H2; [exact IHs|apply IHc].
Qed.

Lemma escape_sql_scan_other (c : ascii) (t : str) :
  Ascii.eqb c ":" = false ->
  escape_sql_scan (c :: t) = c :: escape_sql_scan t.
Proof. intros H. cbn [escape_sql_scan]. now rewrite H. Qed.

Lemma escape_sql_scan_single (d : ascii) (t : str) :
  Ascii.eqb d ":" = false ->
  escape_sql_scan (":"%char :: d :: t)
  = backslash :: ":"%char :: escape_sql_scan (d :: t).
Proof.
  intros H.
  change (escape_sql_scan (":"%char :: d :: t))
    with (if Ascii.eqb d ":" then lit "::" ++ escape_sql_scan t
          else backslash :: ":"%char :: escape_sql_scan (d :: t)).
  now rewrite H.
Qed.

Lemma escape_plpgsql_scan_other (esc : bool) (c : ascii) (t : str) :
  Ascii.eqb c ":" = false ->
  escape_plpgsql_scan esc (c :: t)
  = c :: escape_plpgsql_scan (Ascii.eqb c backslash) t.
Proof. intros H. cbn [escape_plpgsql_scan]. now rewrite H. Qed.

Lemma escape_plpgsql_scan_single (esc : bool) (d : ascii) (t : str) :
  Ascii.eqb d ":" = false -> Ascii.eqb d "=" = false ->
  escape_plpgsql_scan esc (":"%char :: d :: t)
  = (if esc then [":"%char] else [backslash; ":"%char])
      ++ escape_plpgsql_scan false (d :: t).
Proof.
  intros H1 H2.
  change (escape_plpgsql_scan esc (":"%char :: d :: t))
    with (if Ascii.eqb d ":" then lit "::" ++ escape_plpgsql_scan false t
          else if Ascii.eqb d "="
               then lit ":=" ++ escape_plpgsql_scan false t
               else (if esc then [":"%char] else [backslash; ":"%char])
                      ++ escape_plpgsql_scan false (d :: t)).
  now rewrite H1, H2.
Qed.

Lemma drop_backslashes_drop (l : str) :
  drop_backslashes (backslash :: l) = drop_backslashes l.
Proof. reflexivity. Qed.

Lemma drop_backslashes_cons (c : ascii) (l l' : str) :
  drop_backslashes l = drop_backslashes l' ->
  drop_backslashes (c :: l) = drop_backslashes (c :: l').
Proof.
  intros H. unfold drop_backslashes in *. cbn [filter]. now rewrite H.
Qed.

(** The one-pass scans only insert backslashes. *)
Lemma escape_sql_scan_backslashes (s : str) :
  drop_backslashes (escape_sql_scan s) = drop_backslashes s.
Proof.
  induction s as [|c|c d s IHs IHd] using str_ind2; [reflexivity| |].
  - cbn [escape_sql_scan]. destruct (Ascii.eqb_spec c ":") as [->|_];
      reflexivity.
  - destruct (Ascii.eqb_spec c ":") as [->|Hc].
    + destruct (Ascii.eqb_spec d ":") as [->|Hd].
      * change (escape_sql_scan (":"%char :: ":"%char :: s))
          with (":"%char :: ":"%char :: escape_sql_scan s).
        now do 2 apply drop_backslashes_cons.
      * rewrite escape_sql_scan_single
          by (destruct (Ascii.eqb_spec d ":"); congruence).
        rewrite drop_backslashes_drop.
        now apply drop_backslashes_cons.
    + rewrite escape_sql_scan_other
        by (destruct (Ascii.eqb_spec c ":"); congruence).
      now apply drop_backslashes_cons.
Qed.

Lemma escape_plpgsql_scan_backslashes (s : str) :
  forall esc,
    drop_backslashes (escape_plpgsql_scan esc s) = drop_backslashes s.
Proof.
  induction s as [|c|c d s IHs IHd] using str_ind2; intros esc;
    [reflexivity| |].
  - cbn [escape_plpgsql_scan]. destruct (Ascii.eqb_spec c ":") as [->|_];
      [destruct esc|]; reflexivity.
  - destruct (Ascii.eqb_spec c ":") as [->|Hc].
    + destruct (Ascii.eqb_spec d ":") as [->|Hd].
      * change (escape_plpgsql_scan esc (":"%char :: ":"%char :: s))
          with (":"%char :: ":"%char :: escape_plpgsql_scan false s).
        do 2 apply drop_backslashes_cons. apply IHs.
      * destruct (Ascii.eqb_spec d "=") as [->|Hd'].
        -- change (escape_plpgsql_scan esc (":"%char :: "="%char :: s))
             with (":"%char :: "="%char :: escape_plpgsql_scan false s).
           do 2 apply drop_backslashes_cons. apply IHs.
        -- rewrite escape_plpgsql_scan_single
             by (destruct (Ascii.eqb_spec d ":");
                 destruct (Ascii.eqb_spec d "="); congruence).
           destruct esc; cbn [app]; [|rewrite drop_backslashes_drop];
             apply drop_backslashes_cons, IHd.
    + rewrite escape_plpgsql_scan_other
        by (destruct (Ascii.eqb_spec c ":"); congruence).
      apply drop_backslashes_cons, IHd.
Qed.

(** X16.  With tokens free of collisions, the escapers only insert
    backslashes: without its backslashes, the result is the statement
    without its backslashes. *)
Theorem escapers_only_insert_backslashes (h g1 g2 g3 sql : str) :
  is_uuid4_text h = true -> is_uuid4_text g1 = true ->
  is_uuid4_text g2 = true -> is_uuid4_text g3 = true ->
  no_collision_sql h sql = true ->
  no_collision_plpgsql g1 g2 g3 sql = true ->
  drop_backslashes (escape_colon_for_sql h sql) = drop_backslashes sql
  /\ drop_backslashes (escape_colon_for_plpgsql g1 g2 g3 sql)
     = drop_backslashes sql.
Proof.
  intros Uh U1 U2 U3 Fh Fg. split.
  - rewrite escape_colon_for_sql_sim by auto using uuid4_holder_ok.
    apply escape_sql_scan_backslashes.
  - rewrite escape_colon_for_plpgsql_sim by auto using uuid4_holder_ok.
    apply escape_plpgsql_scan_backslashes.
Qed.

Lemma escapers_only_insert_backslashes_witness :
  drop_backslashes (escape_colon_for_sql uuid_a sample_body)
  = drop_backslashes sample_body
  /\ drop_backslashes (escape_colon_for_plpgsql uuid_a uuid_b uuid_c sample_body)
     = drop_backslashes sample_body.
Proof.
  apply (escapers_only_insert_backslashes
           uuid_a uuid_a uuid_b uuid_c sample_body);
    vm_compute; reflexivity.
Defined.

Lemma escape_plpgsql_scan_twice (s : str) :
  forall esc,
    escape_plpgsql_scan esc (escape_plpgsql_scan esc s)
    = escape_plpgsql_scan esc s.
Proof.
  induction s as [|c|c d s IHs IHd] using str_ind2; intros esc;
    [reflexivity| |].
  - destruct (Ascii.eqb_spec c ":") as [->|Hc].
    + destruct esc; reflexivity.
    + assert (E : Ascii.eqb c ":" = false)
        by (destruct (Ascii.eqb_spec c ":"); congruence).
      rewrite (escape_plpgsql_scan_other esc c [] E).
      now rewrite (escape_plpgsql_scan_other esc c _ E).
  - destruct (Ascii.eqb_spec c ":") as [->|Hc].
    + destruct (Ascii.eqb_spec d ":") as [->|Hd].
      * change (escape_plpgsql_scan esc (":"%char :: ":"%char :: s))
          with (":"%char :: ":"%char :: escape_plpgsql_scan false s).
        change (escape_plpgsql_scan esc
                  (":"%char :: ":"%char :: escape_plpgsql_scan false s))
          with (":"%char :: ":"%char
                  :: escape_plpgsql_scan false (escape_plpgsql_scan false s)).
        now rewrite IHs.
      * destruct (Ascii.eqb_spec d "=") as [->|Hd'].
        -- change (escape_plpgsql_scan esc (":"%char :: "="%char :: s))
             with (":"%char :: "="%char :: escape_plpgsql_scan false s).
           change (escape_plpgsql_scan esc
                     (":"%char :: "="%char :: escape_plpgsql_scan false s))
             with (":"%char :: "="%char
                     :: escape_plpgsql_scan false (escape_plpgsql_scan false s)).
           now rewrite IHs.
        -- assert (E1 : Ascii.eqb d ":" = false)
             by (destruct (Ascii.eqb_spec d ":"); congruence).
           assert (E2 : Ascii.eqb d "=" = false)
             by (destruct (Ascii.eqb_spec d "="); congruence).
           rewrite (escape_plpgsql_scan_single esc d s E1 E2).
           specialize (IHd false).
           rewrite (escape_plpgsql_scan_other false d s E1) in IHd |- *.
           set (Y := escape_plpgsql_scan (Ascii.eqb d backslash) s) in *.
           destruct esc; cbn [app].
           ++ rewrite (escape_plpgsql_scan_single true d Y E1 E2).
              cbn [app]. now rewrite IHd.
           ++ rewrite (escape_plpgsql_scan_other false backslash _ eq_refl).
              change (Ascii.eqb backslash backslash) with true.
              rewrite (escape_plpgsql_scan_single true d Y E1 E2).
              cbn [app]. now rewrite IHd.
    + assert (E : Ascii.eqb c ":" = false)
        by (destruct (Ascii.eqb_spec c ":"); congruence).
      rewrite (escape_plpgsql_scan_other esc c (d :: s) E).
      rewrite (escape_plpgsql_scan_other esc c _ E).
      now rewrite IHd.
Qed.

(** X17.  [escape_colon_for_plpgsql] is idempotent: escaping an escaped
    body again, with any tokens that do not collide, changes nothing (the
    backslash written before a colon protects that colon in the next
    run). *)
Theorem escape_colon_for_plpgsql_idempotent (h1 h2 h3 g1 g2 g3 sql : str) :
  is_uuid4_text h1 = true -> is_uuid4_text h2 = true ->
  is_uuid4_text h3 = true ->
  is_uuid4_text g1 = true -> is_uuid4_text g2 = true ->
  is_uuid4_text g3 = true ->
  no_collision_plpgsql h1 h2 h3 sql = true ->
  no_collision_plpgsql g1 g2 g3 (escape_colon_for_plpgsql h1 h2 h3 sql) = true ->
  escape_colon_for_plpgsql g1 g2 g3 (escape_colon_for_plpgsql h1 h2 h3 sql)
  = escape_colon_for_plpgsql h1 h2 h3 sql.
Proof.
  intros U1 U2 U3 V1 V2 V3 Fh Fg.
  rewrite (escape_colon_for_plpgsql_sim g1 g2 g3)
    by auto using uuid4_holder_ok.
  rewrite (escape_colon_for_plpgsql_sim h1 h2 h3)
    by auto using uuid4_holder_ok.
  apply escape_plpgsql_scan_twice.
Qed.

Lemma escape_colon_for_plpgsql_idempotent_witness :
  escape_colon_for_plpgsql uuid_b uuid_c uuid_d
    (escape_colon_for_plpgsql uuid_a uuid_b uuid_c sample_body)
  = escape_colon_for_plpgsql uuid_a uuid_b uuid_c sample_body.
Proof.
  apply (escape_colon_for_plpgsql_idempotent
           uuid_a uuid_b uuid_c uuid_b uuid_c uuid_d sample_body);
    vm_compute; reflexivity.
Defined.

Lemma str_in_cons_false (old : str) (c : ascii) (s : str) :
  str_in Ascii.eqb old (c :: s) = false ->
  starts_with Ascii.eqb old (c :: s) = false
  /\ str_in Ascii.eqb old s = false.
Proof. cbn [str_in]. intros H. now apply orb_false_iff in H. Qed.

Lemma escape_scans_agree (s : str) :
  forall esc,
    str_in Ascii.eqb (lit ":=") s = false ->
    str_in Ascii.eqb (backslash :: lit ":") s = false ->
    (esc = true -> starts_with Ascii.eqb (lit ":") s = false) ->
    escape_plpgsql_scan esc s = escape_sql_scan s.
Proof.
  induction s as [|c|c d s IHs IHd] using str_ind2; intros esc Ha Hb He;
    [reflexivity| |].
  - destruct (Ascii.eqb_spec c ":") as [->|Hc].
    + destruct esc; [|reflexivity]. now specialize (He eq_refl).
    + assert (E : Ascii.eqb c ":" = false)
        by (destruct (Ascii.eqb_spec c ":"); congruence).
      rewrite (escape_plpgsql_scan_other esc c [] E).
      now rewrite (escape_sql_scan_other c [] E).
  - apply str_in_cons_false in Ha as [Ha0 Ha].
    apply str_in_cons_false in Hb as [Hb0 Hb].
    destruct (Ascii.eqb_spec c ":") as [->|Hc].
    + assert (esc = false) as ->.
      { destruct esc; [now specialize (He eq_refl)|reflexivity]. }
      destruct (Ascii.eqb_spec d ":") as [->|Hd].
      * apply str_in_cons_false in Ha as [_ Ha].
        apply str_in_cons_false in Hb as [_ Hb].
        change (escape_plpgsql_scan false (":"%char :: ":"%char :: s))
          with (":"%char :: ":"%char :: escape_plpgsql_scan false s).
        change (escape_sql_scan (":"%char :: ":"%char :: s))
          with (":"%char :: ":"%char :: escape_sql_scan s).
        rewrite (IHs false); [reflexivity|assumption|assumption|discriminate].
      * destruct (Ascii.eqb_spec d "=") as [->|Hd'];
          [discriminate Ha0|].
        assert (E1 : Ascii.eqb d ":" = false)
          by (destruct (Ascii.eqb_spec d ":"); congruence).
        assert (E2 : Ascii.eqb d "=" = false)
          by (destruct (Ascii.eqb_spec d "="); congruence).
        rewrite (escape_plpgsql_scan_single false d s E1 E2).
        rewrite (escape_sql_scan_single d s E1). cbn [app].
        rewrite (IHd false); [reflexivity|assumption|assumption|discriminate].
    + assert (E : Ascii.eqb c ":" = false)
        by (destruct (Ascii.eqb_spec c ":"); congruence).
      rewrite (escape_plpgsql_scan_other esc c (d :: s) E).
      rewrite (escape_sql_scan_other c (d :: s) E).
      rewrite (IHd (Ascii.eqb c backslash)); [reflexivity|assumption|assumption|].
      intros Hbs. apply Ascii.eqb_eq in Hbs. subst c.
      cbn [starts_with list_ascii_of_string] in Hb0 |- *.
      change (Ascii.eqb backslash backslash) with true in Hb0.
      exact Hb0.
Qed.

(** X18.  On a statement that contains neither ':=' nor a backslash
    followed by a colon, [escape_colon_for_plpgsql] and
    [escape_colon_for_sql] give the same result (with tokens that do not
    collide). *)
Theorem escapers_agree (h g1 g2 g3 sql : str) :
  is_uuid4_text h = true -> is_uuid4_text g1 = true ->
  is_uuid4_text g2 = true -> is_uuid4_text g3 = true ->
  no_collision_sql h sql = true ->
  no_collision_plpgsql g1 g2 g3 sql = true ->
  str_in Ascii.eqb (lit ":=") sql = false ->
  str_in Ascii.eqb (backslash :: lit ":") sql = false ->
  escape_colon_for_plpgsql g1 g2 g3 sql = escape_colon_for_sql h sql.
Proof.
  intros Uh U1 U2 U3 Fh Fg Ha Hb.
  rewrite escape_colon_for_sql_sim by auto using uuid4_holder_ok.
  rewrite escape_colon_for_plpgsql_sim by auto using uuid4_holder_ok.
  apply escape_scans_agree; [assumption|assumption|discriminate].
Qed.

Lemma escapers_agree_witness :
  escape_colon_for_plpgsql uuid_b uuid_c uuid_d sample_url
  = escape_colon_for_sql uuid_a sample_url.
Proof.
  apply (escapers_agree uuid_a uuid_b uuid_c uuid_d sample_url);
    vm_compute; reflexivity.
Defined.

Lemma replace_absent (old new s : str) :
  old <> [] -> str_in Ascii.eqb old s = false ->
  replace Ascii.eqb old new s = s.
Proof.
  intros Hne. induction s as [|c s IH]; intros H.
  - now apply replace_nil.
  - apply str_in_cons_false in H as [H0 H].
    rewrite (replace_miss Ascii.eqb old new c s H0). now rewrite IH.
Qed.

Lemma str_in_absent_char (a : ascii) (old s : str) :
  In a old -> mem_char a s = false -> str_in Ascii.eqb old s = false.
Proof.
  intros Ha. induction s as [|c s IH]; intros H.
  - destruct old; [destruct Ha|reflexivity].
  - cbn [str_in]. apply orb_false_iff. split.
    + destruct (starts_with Ascii.eqb old (c :: s)) eqn:E; [|reflexivity].
      apply (starts_with_inv Ascii.eqb Ascii.eqb_eq) in E as [r E].
      assert (G : mem_char a (c :: s) = true).
      { apply mem_char_In. rewrite E. apply in_or_app. now left. }
      congruence.
    + apply IH. unfold mem_char in *. cbn [existsb] in H.
      now apply orb_false_iff in H.
Qed.

Lemma replace_present_colon (old s : str) :
  old <> [] -> str_in Ascii.eqb old s = true ->
  mem_char ":" (replace Ascii.eqb old (lit "::") s) = true.
Proof.
  intros Hne. induction s as [|c s IH]; intros H.
  - destruct old; [congruence|discriminate].
  - destruct (starts_with Ascii.eqb old (c :: s)) eqn:E.
    + apply (starts_with_inv Ascii.eqb Ascii.eqb_eq) in E as [r E].
      rewrite E, (replace_hit Ascii.eqb Ascii.eqb_eq) by exact Hne.
      reflexivity.
    + rewrite (replace_miss Ascii.eqb old _ c s E).
      cbn [str_in] in H. rewrite E in H. cbn [orb] in H.
      unfold mem_char in *. cbn [existsb]. rewrite (IH H).
      apply orb_true_r.
Qed.

(** X19.  A statement without a colon is returned unchanged by
    [escape_colon_for_sql] exactly when the token does not occur in it,
    and by [escape_colon_for_plpgsql] when none of its three tokens occurs
    in it; the tokens are any non-empty texts. *)
Theorem escapers_without_colon (h g1 g2 g3 sql : str) :
  mem_char ":" sql = false ->
  h <> [] -> g1 <> [] -> g2 <> [] -> g3 <> [] ->
  str_in Ascii.eqb g1 sql = false ->
  str_in Ascii.eqb g2 sql = false ->
  str_in Ascii.eqb g3 sql = false ->
  (escape_colon_for_sql h sql = sql <-> str_in Ascii.eqb h sql = false)
  /\ escape_colon_for_plpgsql g1 g2 g3 sql = sql.
Proof.
  intros Hc Hh H1 H2 H3 A1 A2 A3.
  assert (Acc : forall old new, In ":"%char old -> old <> [] ->
                  replace Ascii.eqb old new sql = sql).
  { intros old new Hin Hne. apply replace_absent; [exact Hne|].
    now apply (str_in_absent_char ":"%char). }
  split.
  - unfold escape_colon_for_sql.
    rewrite (Acc (lit "::")) by (cbn; auto; discriminate).
    rewrite (Acc (lit ":")) by (cbn; auto; discriminate).
    split.
    + intros E. destruct (str_in Ascii.eqb h sql) eqn:Hin; [|reflexivity].
      pose proof (replace_present_colon h sql Hh Hin) as G.
      rewrite E in G. congruence.
    + intros Hin. now apply replace_absent.
  - unfold escape_colon_for_plpgsql.
    rewrite (Acc (lit "::")) by (cbn; auto; discriminate).
    rewrite (Acc (lit ":=")) by (cbn; auto; discriminate).
    rewrite (Acc (backslash :: lit ":")) by (cbn; auto; discriminate).
    rewrite (Acc (lit ":")) by (cbn; auto; discriminate).
    rewrite (replace_absent g3) by assumption.
    rewrite (replace_absent g2) by assumption.
    now rewrite (replace_absent g1) by assumption.
Qed.

Lemma escapers_without_colon_witness :
  (escape_colon_for_sql uuid_a (lit "SELECT 1") = lit "SELECT 1"
   <-> str_in Ascii.eqb uuid_a (lit "SELECT 1") = false)
  /\ escape_colon_for_plpgsql uuid_b uuid_c uuid_d (lit "SELECT 1")
     = lit "SELECT 1".
Proof.
  apply (escapers_without_colon uuid_a uuid_b uuid_c uuid_d (lit "SELECT 1"));
    try discriminate; vm_compute; reflexivity.
Defined.
